(** * react-verse-explorer-guide: the reusable hooks and the todo store

    A shallow embedding of [src/hooks/useTodos] (the todo store), of
    [useLocalStorage] and [useFetch] from the custom-hooks page, and of the
    part of the JavaScript host they call: [String.prototype.trim],
    [Number.prototype.toString] on integers, [JSON.stringify], [JSON.parse]
    and [localStorage].

    Conventions.
    - A JavaScript string is a Rocq [string] holding its UTF-8 bytes.
    - [localStorage] is a finite map from keys to texts ([gmap string string]).
    - A React component instance is a record of its state cells; an event
      handler is a function of the state of the render it closes over, and
      a state update followed by the re-render and its effects is one step. *)

From Stdlib Require Import ZArith NArith Ascii String List Lia Bool.
From Stdlib Require Import DecimalString DecimalPos DecimalZ.
From stdpp Require Import gmap strings.

Import ListNotations.
Set Warnings "-register-all".
Local Open Scope string_scope.
Local Open Scope list_scope.

(** ** Host: strings *)

Module JS.

Definition code (c : ascii) : N := N_of_ascii c.

(** WhiteSpace and LineTerminator code points below U+0080:
    TAB, LF, VT, FF, CR, SP. *)
Definition is_ws1 (c : ascii) : bool :=
  ((9 <=? code c) && (code c <=? 13) || (code c =? 32))%N.

(** U+00A0, as the bytes C2 A0. *)
Definition is_ws2 (c1 c2 : ascii) : bool :=
  ((code c1 =? 0xC2) && (code c2 =? 0xA0))%N.

(** U+1680, U+2000..U+200A, U+2028, U+2029, U+202F, U+205F, U+3000,
    U+FEFF, as their three bytes. *)
Definition is_ws3 (c1 c2 c3 : ascii) : bool :=
  let a := code c1 in
  let b := code c2 in
  let c := code c3 in
  ((a =? 0xE1) && (b =? 0x9A) && (c =? 0x80)
   || (a =? 0xE2) && (b =? 0x80)
      && ((0x80 <=? c) && (c <=? 0x8A) || (c =? 0xA8) || (c =? 0xA9)
          || (c =? 0xAF))
   || (a =? 0xE2) && (b =? 0x81) && (c =? 0x9F)
   || (a =? 0xE3) && (b =? 0x80) && (c =? 0x80)
   || (a =? 0xEF) && (b =? 0xBB) && (c =? 0xBF))%N.

(** [String.prototype.trimStart]. *)
Fixpoint trimStart (s : string) : string :=
  match s with
  | EmptyString => s
  | String c1 r1 =>
      if is_ws1 c1 then trimStart r1
      else
        match r1 with
        | EmptyString => s
        | String c2 r2 =>
            if is_ws2 c1 c2 then trimStart r2
            else
              match r2 with
              | EmptyString => s
              | String c3 r3 =>
                  if is_ws3 c1 c2 c3 then trimStart r3 else s
              end
        end
  end.

(** A string of white space only. *)
Definition blank (s : string) : bool :=
  match trimStart s with
  | EmptyString => true
  | String _ _ => false
  end.

(** [String.prototype.trimEnd]: drops the longest blank suffix. *)
Fixpoint trimEnd (s : string) : string :=
  match s with
  | EmptyString => EmptyString
  | String c r => if blank s then EmptyString else String c (trimEnd r)
  end.

(** [String.prototype.trim]. *)
Definition trim (s : string) : string := trimEnd (trimStart s).

(** ToBoolean on a string: the empty string is the only falsy one. *)
Definition truthy (s : string) : bool :=
  match s with
  | EmptyString => false
  | String _ _ => true
  end.

(** [Number.prototype.toString] on an integer below 10^21 in magnitude
    (every [Date.now()] reading and every HTTP status is one): the decimal
    digits, with a leading minus sign when negative. *)
Definition toString (n : Z) : string :=
  NilZero.string_of_int (Z.to_int n).

End JS.

(** The text starts with a white space character. *)
Definition starts_ws (s : string) : bool :=
  match s with
  | String c1 r1 =>
      JS.is_ws1 c1
      || match r1 with
         | String c2 r2 =>
             JS.is_ws2 c1 c2
             || match r2 with
                | String c3 _ => JS.is_ws3 c1 c2 c3
                | EmptyString => false
                end
         | EmptyString => false
         end
  | EmptyString => false
  end.

(** ** The todo store: [useTodos] *)

(** [interface Todo]. *)
Record Todo : Type := mkTodo
  { id : string;
    text : string;
    completed : bool }.

(** [addTodo(text)], run in a render whose state is [todos], with [now]
    the reading of [Date.now()].  [None]: the handler returns before
    [setTodos]; [Some l]: it calls [setTodos(l)]. *)
Definition addTodo (now : Z) (text : string) (todos : list Todo)
  : option (list Todo) :=
  if negb (JS.truthy (JS.trim text)) then None
  else
    let newTodo :=
      {| id := JS.toString now; text := JS.trim text; completed := false |} in
    Some (todos ++ [newTodo]).

(** [toggleTodo(id)]. *)
Definition toggleTodo (id0 : string) (todos : list Todo)
  : option (list Todo) :=
  Some (List.map
          (fun todo =>
             if String.eqb (id todo) id0
             then {| id := id todo; text := text todo;
                     completed := negb (completed todo) |}
             else todo)
          todos).

(** [editTodo(id, newText)]. *)
Definition editTodo (id0 newText : string) (todos : list Todo)
  : option (list Todo) :=
  if negb (JS.truthy (JS.trim newText)) then None
  else
    Some (List.map
            (fun todo =>
               if String.eqb (id todo) id0
               then {| id := id todo; text := JS.trim newText;
                       completed := completed todo |}
               else todo)
            todos).

(** [deleteTodo(id)]. *)
Definition deleteTodo (id0 : string) (todos : list Todo)
  : option (list Todo) :=
  Some (List.filter (fun todo => negb (String.eqb (id todo) id0)) todos).

(** [clearCompleted()]. *)
Definition clearCompleted (todos : list Todo) : option (list Todo) :=
  Some (List.filter (fun todo => negb (completed todo)) todos).

(** The derived [stats] object. *)
Record Stats : Type := mkStats
  { total : nat;
    stats_completed : nat;
    active : nat }.

Definition stats (todos : list Todo) : Stats :=
  {| total := length todos;
     stats_completed := length (List.filter (fun todo => completed todo) todos);
     active := length (List.filter (fun todo => negb (completed todo)) todos) |}.

(** ** Host: JSON *)

Module JSON.

Import JS.

(** A JSON value.  A number keeps the text of its literal; an object keeps
    its members in the order of the text. *)
Inductive json : Type :=
  | JNull
  | JBool (b : bool)
  | JNum (lit : string)
  | JStr (s : string)
  | JArr (items : list json)
  | JObj (members : list (string * json)).

Definition dquote : ascii := "034"%char.
Definition bslash : ascii := "092"%char.

Definition chr (c : ascii) (n : N) : bool := (code c =? n)%N.

(** *** [JSON.stringify] *)

Definition hex_digit (n : N) : ascii :=
  if (n <? 10)%N then ascii_of_N (48 + n) else ascii_of_N (87 + n).

(** QuoteJSONString on one character: the two-character escapes, the
    [\u00xx] form for the other control characters, the character itself
    otherwise. *)
Definition escape_char (c : ascii) : string :=
  if chr c 34 then String bslash (String dquote EmptyString)
  else if chr c 92 then String bslash (String bslash EmptyString)
  else if chr c 8 then String bslash "b"
  else if chr c 9 then String bslash "t"
  else if chr c 10 then String bslash "n"
  else if chr c 12 then String bslash "f"
  else if chr c 13 then String bslash "r"
  else if (code c <? 32)%N then
    String bslash
      (String "u" (String "0" (String "0"
         (String (hex_digit (code c / 16)) (String (hex_digit (code c mod 16))
            EmptyString)))))
  else String c EmptyString.

Fixpoint quote_chars (s : string) : string :=
  match s with
  | EmptyString => EmptyString
  | String c r => escape_char c +:+ quote_chars r
  end.

Definition quote (s : string) : string :=
  String dquote (quote_chars s +:+ String dquote EmptyString).

(** The elements of an array and the members of an object, with their
    commas and the closing bracket; [f] prints a value. *)
Fixpoint elements (f : json -> string) (l : list json) : string :=
  match l with
  | [] => "]"
  | [x] => f x +:+ "]"
  | x :: r => f x +:+ "," +:+ elements f r
  end.

Fixpoint fields (f : json -> string) (l : list (string * json)) : string :=
  match l with
  | [] => "}"
  | [m] => quote (fst m) +:+ ":" +:+ f (snd m) +:+ "}"
  | m :: r => quote (fst m) +:+ ":" +:+ f (snd m) +:+ "," +:+ fields f r
  end.

(** [JSON.stringify(v)], without indentation. *)
Fixpoint stringify (v : json) : string :=
  match v with
  | JNull => "null"
  | JBool true => "true"
  | JBool false => "false"
  | JNum lit => lit
  | JStr s => quote s
  | JArr items => "[" +:+ elements stringify items
  | JObj members => "{" +:+ fields stringify members
  end.

(** *** [JSON.parse] *)

(** JSON white space: space, TAB, LF, CR. *)
Definition is_json_ws (c : ascii) : bool :=
  chr c 32 || chr c 9 || chr c 10 || chr c 13.

Fixpoint skip_ws (s : string) : string :=
  match s with
  | EmptyString => s
  | String c r => if is_json_ws c then skip_ws r else s
  end.

Definition unhex (c : ascii) : option N :=
  let n := code c in
  if ((48 <=? n) && (n <=? 57))%N then Some (n - 48)%N
  else if ((97 <=? n) && (n <=? 102))%N then Some (n - 87)%N
  else if ((65 <=? n) && (n <=? 70))%N then Some (n - 55)%N
  else None.

Definition unhex4 (h1 h2 h3 h4 : ascii) : option N :=
  match unhex h1, unhex h2, unhex h3, unhex h4 with
  | Some a, Some b, Some c, Some d => Some (((a * 16 + b) * 16 + c) * 16 + d)%N
  | _, _, _, _ => None
  end.

(** One character of a string literal: a byte of the text, or the code
    unit of a [\uXXXX] escape. *)
Inductive unit16 : Type :=
  | Raw (c : ascii)
  | Esc (n : N).

Definition unescape (e : ascii) : option ascii :=
  if chr e 34 then Some dquote
  else if chr e 92 then Some bslash
  else if chr e 47 then Some "/"%char
  else if chr e 98 then Some "008"%char
  else if chr e 102 then Some "012"%char
  else if chr e 110 then Some "010"%char
  else if chr e 114 then Some "013"%char
  else if chr e 116 then Some "009"%char
  else None.

Definition push {A B : Type} (a : A) (r : option (list A * B))
  : option (list A * B) :=
  match r with
  | Some (l, rest) => Some (a :: l, rest)
  | None => None
  end.

(** The characters of a string literal after its opening quote, up to and
    including the closing quote. *)
Fixpoint scan_chars (s : string) : option (list unit16 * string) :=
  match s with
  | EmptyString => None
  | String c r =>
      if chr c 34 then Some ([], r)
      else if chr c 92 then
        match r with
        | EmptyString => None
        | String e r1 =>
            if chr e 117 then
              match r1 with
              | String h1 (String h2 (String h3 (String h4 r2))) =>
                  match unhex4 h1 h2 h3 h4 with
                  | Some n => push (Esc n) (scan_chars r2)
                  | None => None
                  end
              | _ => None
              end
            else
              match unescape e with
              | Some ch => push (Raw ch) (scan_chars r1)
              | None => None
              end
        end
      else if (code c <? 32)%N then None
      else push (Raw c) (scan_chars r)
  end.

Definition byte (n : N) : ascii := ascii_of_N n.

(** The UTF-8 bytes of a code point (a lone surrogate is encoded like any
    other three-byte code point). *)
Definition utf8 (cp : N) : string :=
  (if cp <? 0x80 then String (byte cp) EmptyString
   else if cp <? 0x800 then
     String (byte (0xC0 + cp / 64)) (String (byte (0x80 + cp mod 64)) EmptyString)
   else if cp <? 0x10000 then
     String (byte (0xE0 + cp / 4096))
       (String (byte (0x80 + (cp / 64) mod 64))
          (String (byte (0x80 + cp mod 64)) EmptyString))
   else
     String (byte (0xF0 + cp / 262144))
       (String (byte (0x80 + (cp / 4096) mod 64))
          (String (byte (0x80 + (cp / 64) mod 64))
             (String (byte (0x80 + cp mod 64)) EmptyString))))%N.

Definition is_high (n : N) : bool := ((0xD800 <=? n) && (n <? 0xDC00))%N.
Definition is_low (n : N) : bool := ((0xDC00 <=? n) && (n <? 0xE000))%N.

(** The string value of the scanned characters: an escaped high surrogate
    followed by an escaped low surrogate is one code point. *)
Fixpoint decode_units (us : list unit16) : string :=
  match us with
  | [] => EmptyString
  | Raw c :: r => String c (decode_units r)
  | Esc hi :: r =>
      match r with
      | Esc lo :: r' =>
          if is_high hi && is_low lo
          then utf8 (0x10000 + (hi - 0xD800) * 0x400 + (lo - 0xDC00))%N
               +:+ decode_units r'
          else utf8 hi +:+ decode_units r
      | _ => utf8 hi +:+ decode_units r
      end
  end.

(** A string literal after its opening quote. *)
Definition parse_string (s : string) : option (string * string) :=
  match scan_chars s with
  | Some (us, rest) => Some (decode_units us, rest)
  | None => None
  end.

Definition is_digit (c : ascii) : bool := ((48 <=? code c) && (code c <=? 57))%N.

Fixpoint span_digits (s : string) : string * string :=
  match s with
  | EmptyString => (EmptyString, EmptyString)
  | String c r =>
      if is_digit c
      then let (d, rest) := span_digits r in (String c d, rest)
      else (EmptyString, s)
  end.

(** The integer part of a number: [0], or a non-zero digit and digits. *)
Definition parse_int (s : string) : option (string * string) :=
  match s with
  | EmptyString => None
  | String c r =>
      if chr c 48 then Some (String c EmptyString, r)
      else if is_digit c
      then let (d, rest) := span_digits r in Some (String c d, rest)
      else None
  end.

(** The optional fraction: a dot and at least one digit. *)
Definition parse_frac (s : string) : option (string * string) :=
  match s with
  | String c r =>
      if chr c 46 then
        match span_digits r with
        | (EmptyString, _) => None
        | (d, rest) => Some (String c d, rest)
        end
      else Some (EmptyString, s)
  | EmptyString => Some (EmptyString, s)
  end.

(** The optional exponent: [e] or [E], an optional sign, at least one
    digit. *)
Definition parse_exp (s : string) : option (string * string) :=
  match s with
  | String c r =>
      if chr c 101 || chr c 69 then
        let (sign, r1) :=
          match r with
          | String g r' =>
              if chr g 43 || chr g 45 then (String g EmptyString, r')
              else (EmptyString, r)
          | EmptyString => (EmptyString, r)
          end in
        match span_digits r1 with
        | (EmptyString, _) => None
        | (d, rest) => Some (String c (sign +:+ d), rest)
        end
      else Some (EmptyString, s)
  | EmptyString => Some (EmptyString, s)
  end.

Definition parse_number (s : string) : option (string * string) :=
  let (sign, s1) :=
    match s with
    | String c r => if chr c 45 then (String c EmptyString, r) else (EmptyString, s)
    | EmptyString => (EmptyString, s)
    end in
  match parse_int s1 with
  | None => None
  | Some (i, s2) =>
      match parse_frac s2 with
      | None => None
      | Some (f, s3) =>
          match parse_exp s3 with
          | None => None
          | Some (e, s4) => Some (sign +:+ i +:+ f +:+ e, s4)
          end
      end
  end.

(** [strip p s]: the rest of [s] after its prefix [p]. *)
Fixpoint strip (p s : string) : option string :=
  match p, s with
  | EmptyString, _ => Some s
  | String a p', String b s' => if Ascii.eqb a b then strip p' s' else None
  | String _ _, EmptyString => None
  end.

(** A value, the elements of an array after its opening bracket and the
    members of an object after its opening brace.  Every call spends one
    unit of [fuel]; [parse] gives more than a text of that length can use. *)
Fixpoint parse_value (fuel : nat) (s : string) {struct fuel}
  : option (json * string) :=
  match fuel with
  | O => None
  | S n =>
      match skip_ws s with
      | EmptyString => None
      | String c r =>
          if chr c 34 then
            match parse_string r with
            | Some (str, rest) => Some (JStr str, rest)
            | None => None
            end
          else if chr c 91 then
            match skip_ws r with
            | EmptyString => None
            | String c' r' =>
                if chr c' 93 then Some (JArr [], r')
                else
                  match parse_elements n r with
                  | Some (l, rest) => Some (JArr l, rest)
                  | None => None
                  end
            end
          else if chr c 123 then
            match skip_ws r with
            | EmptyString => None
            | String c' r' =>
                if chr c' 125 then Some (JObj [], r')
                else
                  match parse_members n r with
                  | Some (l, rest) => Some (JObj l, rest)
                  | None => None
                  end
            end
          else
            match strip "null" (String c r) with
            | Some rest => Some (JNull, rest)
            | None =>
                match strip "true" (String c r) with
                | Some rest => Some (JBool true, rest)
                | None =>
                    match strip "false" (String c r) with
                    | Some rest => Some (JBool false, rest)
                    | None =>
                        match parse_number (String c r) with
                        | Some (lit, rest) => Some (JNum lit, rest)
                        | None => None
                        end
                    end
                end
            end
      end
  end
with parse_elements (fuel : nat) (s : string) {struct fuel}
  : option (list json * string) :=
  match fuel with
  | O => None
  | S n =>
      match parse_value n s with
      | None => None
      | Some (v, r) =>
          match skip_ws r with
          | EmptyString => None
          | String c r' =>
              if chr c 44 then push v (parse_elements n r')
              else if chr c 93 then Some ([v], r')
              else None
          end
      end
  end
with parse_members (fuel : nat) (s : string) {struct fuel}
  : option (list (string * json) * string) :=
  match fuel with
  | O => None
  | S n =>
      match skip_ws s with
      | EmptyString => None
      | String q r =>
          if chr q 34 then
            match parse_string r with
            | None => None
            | Some (k, r1) =>
                match skip_ws r1 with
                | EmptyString => None
                | String c1 r2 =>
                    if chr c1 58 then
                      match parse_value n r2 with
                      | None => None
                      | Some (v, r3) =>
                          match skip_ws r3 with
                          | EmptyString => None
                          | String c2 r4 =>
                              if chr c2 44
                              then push (k, v) (parse_members n r4)
                              else if chr c2 125 then Some ([(k, v)], r4)
                              else None
                          end
                      end
                    else None
                end
            end
          else None
      end
  end.

(** [JSON.parse(text)]: [None] stands for the SyntaxError it throws. *)
Definition parse (text : string) : option json :=
  match parse_value (2 * String.length text + 2) text with
  | Some (v, rest) =>
      match skip_ws rest with
      | EmptyString => Some v
      | String _ _ => None
      end
  | None => None
  end.

(** *** Reading aids for the parser *)

(** The scanned form of one character of a string as [quote_chars] prints
    it. *)
Definition unit_of (c : ascii) : unit16 :=
  if ((code c <? 32)%N
      && negb (chr c 8 || chr c 9 || chr c 10 || chr c 12 || chr c 13))%bool
  then Esc (code c) else Raw c.

(** What [parse_elements] does after an element. *)
Definition after_element (n : nat) (r : option (json * string))
  : option (list json * string) :=
  match r with
  | None => None
  | Some (v, r) =>
      match skip_ws r with
      | EmptyString => None
      | String c r' =>
          if chr c 44 then push v (parse_elements n r')
          else if chr c 93 then Some ([v], r')
          else None
      end
  end.

(** What [parse_members] does after the value of a member. *)
Definition after_member (n : nat) (k : string) (r : option (json * string))
  : option (list (string * json) * string) :=
  match r with
  | None => None
  | Some (v, r3) =>
      match skip_ws r3 with
      | EmptyString => None
      | String c2 r4 =>
          if chr c2 44 then push (k, v) (parse_members n r4)
          else if chr c2 125 then Some ([(k, v)], r4)
          else None
      end
  end.

End JSON.

(** ** Host: exceptions *)

(** What a JavaScript [throw] carries: an [Error] object with its message,
    or any other value. *)
Record JsError : Type := mkError { message : string }.

Inductive thrown : Type :=
  | AnError (e : JsError)
  | NotAnError (v : JSON.json).

(** A completion: a value, or an exception on its way to the caller. *)
Inductive completion (A : Type) : Type :=
  | Normal (a : A)
  | Throw (e : thrown).

Arguments Normal {A} a.
Arguments Throw {A} e.

(** [try { body } catch (error) { handler }]. *)
Definition try_catch {A : Type} (body : completion A)
    (handler : thrown -> completion A) : completion A :=
  match body with
  | Normal a => Normal a
  | Throw e => handler e
  end.

(** [JSON.parse] as a completion: a text that is not JSON throws a
    SyntaxError. *)
Definition JSON_parse (text : string) : completion JSON.json :=
  match JSON.parse text with
  | Some v => Normal v
  | None => Throw (AnError (mkError "SyntaxError"))
  end.

(** ** The todo store: persistence *)

(** A [Todo] and a [Todo[]] as JavaScript values. *)
Definition json_of_Todo (t : Todo) : JSON.json :=
  JSON.JObj [("id", JSON.JStr (id t)); ("text", JSON.JStr (text t));
             ("completed", JSON.JBool (completed t))].

Definition json_of_todos (l : list Todo) : JSON.json :=
  JSON.JArr (List.map json_of_Todo l).

(** The initialiser passed to [useState]: the value the first render of a
    fresh instance starts from, read from [localStorage]. *)
Definition useTodos_initial (localStorage : gmap string string)
  : completion JSON.json :=
  match localStorage !! "todos" with
  | Some savedTodos =>
      if JS.truthy savedTodos then JSON_parse savedTodos
      else Normal (JSON.JArr [])
  | None => Normal (JSON.JArr [])
  end.

(** The effect [localStorage.setItem('todos', JSON.stringify(todos))]. *)
Definition save_todos (l : list Todo) (localStorage : gmap string string)
  : gmap string string :=
  <["todos" := JSON.stringify (json_of_todos l)]> localStorage.

(** A mounted instance of the hook: the state of the current render and
    the storage of the page. *)
Record Store : Type := mkStore
  { todos : list Todo;
    localStorage : gmap string string }.

(** The first render with state [l] and its effect. *)
Definition mounted (l : list Todo) (ls : gmap string string) : Store :=
  {| todos := l; localStorage := save_todos l ls |}.

(** The calls the hook offers. *)
Inductive call : Type :=
  | AddTodo (now : Z) (text : string)
  | ToggleTodo (id : string)
  | EditTodo (id newText : string)
  | DeleteTodo (id : string)
  | ClearCompleted.

Definition handler (c : call) (l : list Todo) : option (list Todo) :=
  match c with
  | AddTodo now text => addTodo now text l
  | ToggleTodo id0 => toggleTodo id0 l
  | EditTodo id0 newText => editTodo id0 newText l
  | DeleteTodo id0 => deleteTodo id0 l
  | ClearCompleted => clearCompleted l
  end.

(** One call on a mounted instance: the handler of the current render
    runs; when it calls [setTodos] with a new array the component renders
    again and the effect, whose dependency changed, saves the new state. *)
Definition dispatch (s : Store) (c : call) : Store :=
  match handler c (todos s) with
  | Some l => {| todos := l; localStorage := save_todos l (localStorage s) |}
  | None => s
  end.

Definition run (s : Store) (calls : list call) : Store :=
  fold_left dispatch calls s.

(** The instance after each call of a sequence, in order. *)
Fixpoint trace (s : Store) (calls : list call) : list Store :=
  match calls with
  | [] => []
  | c :: rest => dispatch s c :: trace (dispatch s c) rest
  end.

(** The storage holds the text of the state of the current render. *)
Definition in_sync (s : Store) : Prop :=
  localStorage s !! "todos" = Some (JSON.stringify (json_of_todos (todos s))).

(** The text of every record is not empty. *)
Definition texts_nonempty (l : list Todo) : Prop :=
  List.Forall (fun t => text t <> EmptyString) l.

(** A sequence of [addTodo] calls, each with its clock reading and its
    text. *)
Definition adds (l : list (Z * string)) : list call :=
  List.map (fun a => AddTodo (fst a) (snd a)) l.

(** ** [useLocalStorage] *)

(** The initialiser passed to [useState].  [window] is [None] where there
    is no [window] object. *)
Definition useLocalStorage_initial (window : option (gmap string string))
    (key : string) (initialValue : JSON.json) : completion JSON.json :=
  match window with
  | None => Normal initialValue
  | Some storage =>
      try_catch
        (match storage !! key with
         | Some item =>
             if JS.truthy item then JSON_parse item else Normal initialValue
         | None => Normal initialValue
         end)
        (fun error => Normal initialValue)
  end.

(** ** [useFetch] *)

Module Fetch.

(** How the request of one run of the effect ends: [fetch] rejects, or it
    gives a response with its [ok] flag, its [status] and the way
    [response.json()] settles. *)
Inductive settlement : Type :=
  | Rejected (reason : thrown)
  | Response (ok : bool) (status : Z) (body : thrown + JSON.json).

(** A component instance that calls [useFetch]: the three state cells,
    the dependency array of the last run of the effect, the [isMounted]
    variable of every run so far, the calls of [fetch] so far, and whether
    the instance is still in the tree. *)
Record state : Type := mkState
  { data : JSON.json;
    loading : bool;
    error : option JsError;
    deps : string * string;
    isMounted : gmap nat bool;
    requests : list (string * JSON.json);
    alive : bool }.

Definition set_data (v : JSON.json) (s : state) : state :=
  mkState v (loading s) (error s) (deps s) (isMounted s) (requests s) (alive s).

Definition set_loading (b : bool) (s : state) : state :=
  mkState (data s) b (error s) (deps s) (isMounted s) (requests s) (alive s).

Definition set_error (e : option JsError) (s : state) : state :=
  mkState (data s) (loading s) e (deps s) (isMounted s) (requests s) (alive s).

(** The dependency array [[url, JSON.stringify(options)]]. *)
Definition key (url : string) (options : JSON.json) : string * string :=
  (url, JSON.stringify options).

(** The run of the effect that is current: runs are numbered from 0 in
    the order of their [fetch] calls. *)
Definition current (s : state) : nat := Nat.pred (length (requests s)).

(** One run of the effect: a new [isMounted] set to true,
    [setLoading(true)], and the call of [fetch]. *)
Definition effect (url : string) (options : JSON.json) (s : state) : state :=
  {| data := data s;
     loading := true;
     error := error s;
     deps := key url options;
     isMounted := <[length (requests s) := true]> (isMounted s);
     requests := requests s ++ [(url, options)];
     alive := alive s |}.

(** The function the effect returns: [isMounted = false] in its run. *)
Definition cleanup (s : state) : state :=
  {| data := data s;
     loading := loading s;
     error := error s;
     deps := deps s;
     isMounted := <[current s := false]> (isMounted s);
     requests := requests s;
     alive := alive s |}.

(** The first render and its effect. *)
Definition mount (url : string) (options : JSON.json) : state :=
  effect url options
    {| data := JSON.JNull; loading := true; error := None;
       deps := key url options; isMounted := ∅; requests := [];
       alive := true |}.

Definition same_deps (a b : string * string) : bool :=
  String.eqb (fst a) (fst b) && String.eqb (snd a) (snd b).

(** A later render: the effect runs again, after the cleanup of its last
    run, when a dependency changed. *)
Definition render (url : string) (options : JSON.json) (s : state) : state :=
  if negb (alive s) then s
  else if same_deps (deps s) (key url options) then s
  else effect url options (cleanup s).

(** The instance leaves the tree. *)
Definition unmount (s : state) : state :=
  if negb (alive s) then s
  else
    let s' := cleanup s in
    mkState (data s') (loading s') (error s') (deps s') (isMounted s')
      (requests s') false.

(** The [isMounted] variable that run [k] of the effect reads. *)
Definition flag (k : nat) (s : state) : bool :=
  match isMounted s !! k with
  | Some b => b
  | None => false
  end.

(** [err instanceof Error ? err : new Error('An unknown error occurred')]. *)
Definition as_error (err : thrown) : JsError :=
  match err with
  | AnError e => e
  | NotAnError _ => mkError "An unknown error occurred"
  end.

(** The end of the [try] block, the [catch] block and the [finally]
    block of run [k].  The updates of one block reach the screen in one
    render. *)
Definition on_success (k : nat) (json : JSON.json) (s : state) : state :=
  if flag k s then set_error None (set_data json s) else s.

Definition on_catch (k : nat) (err : thrown) (s : state) : state :=
  if flag k s then set_data JSON.JNull (set_error (Some (as_error err)) s)
  else s.

Definition on_finally (k : nat) (s : state) : state :=
  if flag k s then set_loading false s else s.

(** What the [try] block does once the request has ended: a value to
    store, or an exception for the [catch] block. *)
Definition try_block (o : settlement) : completion JSON.json :=
  match o with
  | Rejected reason => Throw reason
  | Response ok status body =>
      if negb ok
      then Throw (AnError (mkError ("HTTP error! Status: " +:+ JS.toString status)))
      else
        match body with
        | inr json => Normal json
        | inl reason => Throw reason
        end
  end.

(** The rest of [fetchData] of run [k], from the first [await] on. *)
Definition settle (k : nat) (o : settlement) (s : state) : state :=
  on_finally k
    (match try_block o with
     | Normal json => on_success k json s
     | Throw err => on_catch k err s
     end).

Inductive event : Type :=
  | Render (url : string) (options : JSON.json)
  | Settle (k : nat) (o : settlement)
  | Unmount.

Definition step (s : state) (e : event) : state :=
  match e with
  | Render url options => render url options s
  | Settle k o => settle k o s
  | Unmount => unmount s
  end.

Definition steps (s : state) (es : list event) : state :=
  fold_left step es s.

(** What the hook returns to its caller. *)
Definition result (s : state) : JSON.json * bool * option JsError :=
  (data s, loading s, error s).

(** What the hook returns once a request that ended as [o] has been
    taken into account, as far as it depends on [o] alone. *)
Definition result_of (o : settlement) : JSON.json * bool * option JsError :=
  match try_block o with
  | Normal json => (json, false, None)
  | Throw err => (JSON.JNull, false, Some (as_error err))
  end.

(** Run [k] of the effect has been cleaned up. *)
Definition stale (k : nat) (s : state) : Prop :=
  k < length (requests s) /\ flag k s = false.

(** An event that neither ends request [k] nor changes the key [d] nor
    removes the instance. *)
Definition quiet (k : nat) (d : string * string) (e : event) : Prop :=
  match e with
  | Render url options => key url options = d
  | Settle k' _ => k' <> k
  | Unmount => False
  end.

(** Only the [isMounted] of the current run of an instance in the tree
    can be true. *)
Definition flags_ok (s : state) : Prop :=
  forall k, flag k s = true -> alive s = true /\ k = current s.

(** An instance has issued a request; the [isMounted] of its current run
    is true while it is in the tree and false once it has left. *)
Definition wf (s : state) : Prop :=
  0 < length (requests s)
  /\ (alive s = false -> flag (current s) s = false)
  /\ (alive s = true -> flag (current s) s = true).

End Fetch.

(** ** Host: JSON values that [JSON.stringify] prints as JSON *)





(** ** [useTodos]: the first render *)

(** The number a run of digits writes, after the digits read so far. *)
Fixpoint digits_value (acc : Z) (d : string) : Z :=
  match d with
  | EmptyString => acc
  | String c r => digits_value (10 * acc + Z.of_N (JS.code c - 48)) r
  end.

(** The number of a literal is [0] or [-0]: the digits of its integer part
    and of its fraction are all [0], or its value is at most 2^-1075, half
    of the least positive number, and rounds to zero (a value is rounded
    to the nearest number, a tie to the even one). *)
Definition number_is_zero (lit : string) : bool :=
  let s1 :=
    match lit with
    | String c r => if JSON.chr c 45 then r else lit
    | EmptyString => lit
    end in
  let (i, s2) := JSON.span_digits s1 in
  let (f, s3) :=
    match s2 with
    | String c r =>
        if JSON.chr c 46 then JSON.span_digits r else (EmptyString, s2)
    | EmptyString => (EmptyString, s2)
    end in
  let e :=
    match s3 with
    | String _ (String g r) =>
        if JSON.chr g 45 then (- digits_value 0 (fst (JSON.span_digits r)))%Z
        else if JSON.chr g 43 then digits_value 0 (fst (JSON.span_digits r))
        else digits_value 0 (fst (JSON.span_digits (String g r)))
    | _ => 0%Z
    end in
  let m := digits_value 0 (i +:+ f) in
  let k := (e - Z.of_nat (String.length f))%Z in
  (m =? 0)%Z || ((k <? 0)%Z && (m * 2 ^ 1075 <=? 10 ^ (- k))%Z).

(** ToBoolean of a parsed value, or of [undefined] ([None]). *)
Definition to_boolean (v : option JSON.json) : bool :=
  match v with
  | None => false
  | Some JSON.JNull => false
  | Some (JSON.JBool b) => b
  | Some (JSON.JNum lit) => negb (number_is_zero lit)
  | Some (JSON.JStr s) => JS.truthy s
  | Some (JSON.JArr _) => true
  | Some (JSON.JObj _) => true
  end.

(** The property [k] of a parsed object: the value of the last member
    with that name, [undefined] without one. *)
Fixpoint member (k : string) (members : list (string * JSON.json))
  : option JSON.json :=
  match members with
  | [] => None
  | (k', v) :: rest =>
      match member k rest with
      | Some w => Some w
      | None => if String.eqb k' k then Some v else None
      end
  end.

Definition TypeError : thrown := AnError (mkError "TypeError").

(** [todo.completed] on a parsed value: a TypeError on [null], the member
    of an object, [undefined] on any other value. *)
Definition read_completed (todo : JSON.json) : completion (option JSON.json) :=
  match todo with
  | JSON.JNull => Throw TypeError
  | JSON.JObj members => Normal (member "completed" members)
  | _ => Normal None
  end.

(** [items.filter(todo => keep(todo.completed))]: the callback runs on the
    elements in order, and the first exception ends the call. *)
Fixpoint filter_completed (keep : option JSON.json -> bool)
    (items : list JSON.json) : completion (list JSON.json) :=
  match items with
  | [] => Normal []
  | todo :: rest =>
      match read_completed todo with
      | Throw e => Throw e
      | Normal c =>
          match filter_completed keep rest with
          | Throw e => Throw e
          | Normal l => Normal (if keep c then todo :: l else l)
          end
      end
  end.

(** The [stats] object on the state of the first render, which is the
    value [JSON.parse] gave: [todos.length] throws on [null], and
    [todos.filter] is a function on an array only. *)
Definition stats_value (todos : JSON.json) : completion Stats :=
  match todos with
  | JSON.JArr items =>
      match filter_completed to_boolean items with
      | Throw e => Throw e
      | Normal done =>
          match filter_completed (fun c => negb (to_boolean c)) items with
          | Throw e => Throw e
          | Normal rest =>
              Normal {| total := length items;
                        stats_completed := length done;
                        active := length rest |}
          end
      end
  | _ => Throw TypeError
  end.

(** The first call of [useTodos]: the initialiser, then the [stats]
    object; the state and the statistics it returns. *)
Definition useTodos_render (localStorage : gmap string string)
  : completion (JSON.json * Stats) :=
  match useTodos_initial localStorage with
  | Throw e => Throw e
  | Normal todos =>
      match stats_value todos with
      | Throw e => Throw e
      | Normal st => Normal (todos, st)
      end
  end.

(** ** [useLocalStorage]: the hook *)

Module LocalStorageHook.

(** An instance of the hook: its state cell and the [window] of the
    page, with its storage, if there is one. *)
Record instance : Type := mkInstance
  { storedValue : JSON.json;
    window : option (gmap string string) }.

(** The first render. *)
Definition mount (w : option (gmap string string)) (key : string)
    (initialValue : JSON.json) : completion instance :=
  match useLocalStorage_initial w key initialValue with
  | Normal v => Normal {| storedValue := v; window := w |}
  | Throw e => Throw e
  end.



End LocalStorageHook.

(** ** The todo page: [TodoAppPage] and [TodoItem] *)

Module TodoPage.

Inductive filter : Type := All | Active | Completed.

(** [filteredTodos]. *)
Definition filteredTodos (f : filter) (l : list Todo) : list Todo :=
  List.filter
    (fun todo =>
       match f with
       | Active => negb (completed todo)
       | Completed => completed todo
       | All => true
       end)
    l.

(** The page: the todo store, the text of the input and the filter. *)
Record page : Type := mkPage
  { store : Store;
    newTodo : string;
    current_filter : filter }.

(** [handleSubmit], with [now] the reading of [Date.now()] in [addTodo]. *)
Definition handleSubmit (now : Z) (p : page) : page :=
  if JS.truthy (JS.trim (newTodo p))
  then {| store := dispatch (store p) (AddTodo now (newTodo p));
          newTodo := EmptyString;
          current_filter := current_filter p |}
  else p.

(** The button [Clear completed] is disabled. *)
Definition clear_disabled (l : list Todo) : bool :=
  Nat.eqb (stats_completed (stats l)) 0.

(** The state of a [TodoItem]. *)
Record item : Type := mkItem
  { isEditing : bool;
    editText : string }.

(** A [TodoItem] when it is mounted for [todo]. *)
Definition item_mount (todo : Todo) : item :=
  {| isEditing := false; editText := text todo |}.

(** What the user does to edit an item: double click on the text, type
    in the input, press a key in it, leave it, press the edit button. *)
Inductive edit_event : Type :=
  | DoubleClick
  | Change (value : string)
  | KeyDown (key : string)
  | Blur
  | EditButton.

(** [handleEditSubmit], for the item of [todo]. *)
Definition handleEditSubmit (todo : Todo) (st : item * Store) : item * Store :=
  let (it, s) := st in
  let s' :=
    if JS.truthy (JS.trim (editText it))
    then dispatch s (EditTodo (id todo) (editText it))
    else s in
  ({| isEditing := false; editText := editText it |}, s').

(** [handleKeyDown]. *)
Definition handleKeyDown (todo : Todo) (key : string) (st : item * Store)
  : item * Store :=
  if String.eqb key "Enter" then handleEditSubmit todo st
  else if String.eqb key "Escape"
  then ({| isEditing := false; editText := text todo |}, snd st)
  else st.

Definition on_edit_event (todo : Todo) (e : edit_event) (st : item * Store)
  : item * Store :=
  match e with
  | DoubleClick => ({| isEditing := true; editText := editText (fst st) |}, snd st)
  | Change value => ({| isEditing := isEditing (fst st); editText := value |}, snd st)
  | KeyDown key => handleKeyDown todo key st
  | Blur => handleEditSubmit todo st
  | EditButton => ({| isEditing := true; editText := text todo |}, snd st)
  end.

End TodoPage.

(** ** [useTimer] *)

Module Timer.

(** An instance of the hook: the two state cells, the [interval]
    variable of the last run of the effect, the intervals of this instance
    that are set and not cleared, the id the next [setInterval] returns
    (ids are positive, so an id is truthy), and whether the instance is
    still in the tree. *)
Record state : Type := mkState
  { seconds : Z;
    isActive : bool;
    interval : option nat;
    timers : gset nat;
    next_timer : nat;
    alive : bool }.

(** One run of the effect. *)
Definition effect (s : state) : state :=
  if isActive s
  then {| seconds := seconds s; isActive := isActive s;
          interval := Some (next_timer s);
          timers := {[ next_timer s ]} ∪ timers s;
          next_timer := S (next_timer s);
          alive := alive s |}
  else {| seconds := seconds s; isActive := isActive s;
          interval := None;
          timers := timers s;
          next_timer := next_timer s;
          alive := alive s |}.

(** The function the effect returns. *)
Definition cleanup (s : state) : state :=
  match interval s with
  | Some i =>
      {| seconds := seconds s; isActive := isActive s;
         interval := interval s;
         timers := timers s ∖ {[ i ]};
         next_timer := next_timer s;
         alive := alive s |}
  | None => s
  end.

(** The first render and its effect. *)
Definition mount (initialSeconds : Z) : state :=
  effect {| seconds := initialSeconds; isActive := false; interval := None;
            timers := ∅; next_timer := 1; alive := true |}.

(** [setIsActive(b)] and the render it causes: none when the state is
    [b] already; otherwise the cleanup of the last run of the effect and
    a new run. *)
Definition setIsActive (b : bool) (s : state) : state :=
  if negb (alive s) then s
  else if Bool.eqb (isActive s) b then s
  else
    effect
      (cleanup
         {| seconds := seconds s; isActive := b; interval := interval s;
            timers := timers s; next_timer := next_timer s;
            alive := alive s |}).

Definition setSeconds (f : Z -> Z) (s : state) : state :=
  if negb (alive s) then s
  else
    {| seconds := f (seconds s); isActive := isActive s;
       interval := interval s; timers := timers s;
       next_timer := next_timer s; alive := alive s |}.

Definition start (s : state) : state := setIsActive true s.
Definition pause (s : state) : state := setIsActive false s.

Definition reset (initialSeconds : Z) (s : state) : state :=
  setSeconds (fun _ => initialSeconds) (setIsActive false s).

(** Interval [i] fires: its callback runs when the interval is set.
    [seconds] is a number; the model holds the integers, and its [+ 1] is
    the one of numbers as long as both sides are between -2^53 and 2^53
    (beyond, a number and its successor can coincide), the range in which
    the count of the timer is stated. *)
Definition tick (i : nat) (s : state) : state :=
  if decide (i ∈ timers s) then setSeconds (fun seconds => (seconds + 1)%Z) s
  else s.

(** The instance leaves the tree. *)
Definition unmount (s : state) : state :=
  if negb (alive s) then s
  else
    let s' := cleanup s in
    {| seconds := seconds s'; isActive := isActive s';
       interval := interval s'; timers := timers s';
       next_timer := next_timer s'; alive := false |}.

Inductive event : Type :=
  | Start
  | Pause
  | Reset
  | Tick (i : nat)
  | Unmount.

Definition step (initialSeconds : Z) (s : state) (e : event) : state :=
  match e with
  | Start => start s
  | Pause => pause s
  | Reset => reset initialSeconds s
  | Tick i => tick i s
  | Unmount => unmount s
  end.

Definition steps (initialSeconds : Z) (s : state) (es : list event) : state :=
  fold_left (step initialSeconds) es s.

(** What the effect keeps: in the tree, one interval is set while the
    timer is active, the one of the last run of the effect, and none
    otherwise; out of the tree, none. *)
Definition timer_ok (s : state) : Prop :=
  if alive s
  then if isActive s
       then exists i, interval s = Some i /\ timers s = {[ i ]}
       else interval s = None /\ timers s = ∅
  else timers s = ∅.

End Timer.

(** ** [useWindowSize] *)

Module WindowSize.

(** An instance of the hook and the window it watches: the state cell
    ([None] for [undefined]), the size of the window, the [handleResize]
    listeners of this instance on the window, and the calls of
    [setWindowSize] so far. *)
Record state : Type := mkState
  { windowSize : option Z * option Z;
    innerWidth : Z;
    innerHeight : Z;
    listeners : nat;
    updates : nat }.

(** [handleResize]. *)
Definition handleResize (s : state) : state :=
  {| windowSize := (Some (innerWidth s), Some (innerHeight s));
     innerWidth := innerWidth s;
     innerHeight := innerHeight s;
     listeners := listeners s;
     updates := S (updates s) |}.

(** The first render, in a window of the given size. *)
Definition first_render (w h : Z) : state :=
  {| windowSize := (None, None); innerWidth := w; innerHeight := h;
     listeners := 0; updates := 0 |}.

(** The effect: [addEventListener] and a call of [handleResize]. *)
Definition effect (s : state) : state :=
  handleResize
    {| windowSize := windowSize s; innerWidth := innerWidth s;
       innerHeight := innerHeight s; listeners := S (listeners s);
       updates := updates s |}.

Definition mount (w h : Z) : state := effect (first_render w h).

(** The window takes a new size and sends [resize] to its listeners. *)
Definition resize (w h : Z) (s : state) : state :=
  Nat.iter (listeners s) handleResize
    {| windowSize := windowSize s; innerWidth := w; innerHeight := h;
       listeners := listeners s; updates := updates s |}.

(** The function the effect returns: [removeEventListener]. *)
Definition unmount (s : state) : state :=
  {| windowSize := windowSize s; innerWidth := innerWidth s;
     innerHeight := innerHeight s; listeners := Nat.pred (listeners s);
     updates := updates s |}.

Definition resizes (s : state) (sizes : list (Z * Z)) : state :=
  fold_left (fun s size => resize (fst size) (snd size) s) sizes s.

End WindowSize.

(** ** [ThemeProvider] *)

Module Theme.

(** The page as the provider sees it: the storage, whether the system
    prefers the dark scheme, and the classes of the root element. *)
Record host : Type := mkHost
  { storage : gmap string string;
    prefers_dark : bool;
    classes : gset string }.

(** The initialiser passed to [useState]; [None] where there is no
    [window]. *)
Definition initial_theme (w : option host) : string :=
  match w with
  | Some h =>
      match storage h !! "theme" with
      | Some savedTheme =>
          if JS.truthy savedTheme then savedTheme
          else if prefers_dark h then "dark" else "light"
      | None => if prefers_dark h then "dark" else "light"
      end
  | None => "light"
  end.

(** ASCII white space, which a class name must not hold. *)
Definition is_ascii_ws (c : ascii) : bool :=
  JSON.chr c 9 || JSON.chr c 10 || JSON.chr c 12 || JSON.chr c 13
  || JSON.chr c 32.

Fixpoint has_ascii_ws (s : string) : bool :=
  match s with
  | EmptyString => false
  | String c r => is_ascii_ws c || has_ascii_ws r
  end.

(** [classList.add(token)]: an empty token is a SyntaxError and a token
    with white space an InvalidCharacterError. *)
Definition classList_add (token : string) (cl : gset string)
  : completion (gset string) :=
  if negb (JS.truthy token) then Throw (AnError (mkError "SyntaxError"))
  else if has_ascii_ws token
  then Throw (AnError (mkError "InvalidCharacterError"))
  else Normal ({[ token ]} ∪ cl).

(** A provider in the tree: its state cell and the page. *)
Record state : Type := mkState
  { theme : string;
    page : host }.

(** The effect: the classes [light] and [dark] leave the root and the
    theme joins it. *)
Definition effect (s : state) : completion state :=
  match classList_add (theme s) (classes (page s) ∖ {[ "light"; "dark" ]}) with
  | Normal cl =>
      Normal {| theme := theme s;
                page := {| storage := storage (page s);
                           prefers_dark := prefers_dark (page s);
                           classes := cl |} |}
  | Throw e => Throw e
  end.

(** The first render and its effect. *)
Definition mount (h : host) : completion state :=
  effect {| theme := initial_theme (Some h); page := h |}.

(** [toggleTheme] and the render it causes. *)
Definition toggleTheme (s : state) : completion state :=
  let newTheme := if String.eqb (theme s) "light" then "dark" else "light" in
  effect {| theme := newTheme;
            page := {| storage := <["theme" := newTheme]> (storage (page s));
                       prefers_dark := prefers_dark (page s);
                       classes := classes (page s) |} |}.

(** [n] calls of [toggleTheme], as long as none throws. *)
Fixpoint toggles (n : nat) (s : state) : completion state :=
  match n with
  | O => Normal s
  | S n' =>
      match toggleTheme s with
      | Normal s' => toggles n' s'
      | Throw e => Throw e
      end
  end.

End Theme.

(** ** The user context of [ContextPage] *)

Module UserContext.

(** [interface User]. *)
Record User : Type := mkUser
  { user_id : Z;
    name : string;
    isLoggedIn : bool }.

(** The page: the [user] cell of [ContextPage], the [name] cell of
    [LoginForm] and the [newName] cell of [DeepComponent]. *)
Record page : Type := mkPage
  { user : option User;
    login_name : string;
    newName : string }.

(** [login(name)], with [n] what [Math.floor(Math.random() * 1000)] gave. *)
Definition login (n : Z) (nm : string) (u : option User) : option User :=
  Some {| user_id := n; name := nm; isLoggedIn := true |}.

Definition logout (u : option User) : option User := None.

(** [updateName(name)]. *)
Definition updateName (nm : string) (u : option User) : option User :=
  match u with
  | Some usr =>
      Some {| user_id := user_id usr; name := nm; isLoggedIn := isLoggedIn usr |}
  | None => u
  end.

(** [handleLogin] of [LoginForm]. *)
Definition handleLogin (n : Z) (p : page) : page :=
  if JS.truthy (JS.trim (login_name p))
  then {| user := login n (login_name p) (user p);
          login_name := EmptyString;
          newName := newName p |}
  else p.

(** [handleUpdateName] of [DeepComponent]. *)
Definition handleUpdateName (p : page) : page :=
  if JS.truthy (JS.trim (newName p))
  then {| user := updateName (newName p) (user p);
          login_name := login_name p;
          newName := EmptyString |}
  else p.

Inductive event : Type :=
  | TypeLoginName (value : string)
  | SubmitLogin (n : Z)
  | Logout
  | TypeNewName (value : string)
  | SubmitUpdate.

Definition step (p : page) (e : event) : page :=
  match e with
  | TypeLoginName value =>
      {| user := user p; login_name := value; newName := newName p |}
  | SubmitLogin n => handleLogin n p
  | Logout =>
      {| user := logout (user p); login_name := login_name p;
         newName := newName p |}
  | TypeNewName value =>
      {| user := user p; login_name := login_name p; newName := value |}
  | SubmitUpdate => handleUpdateName p
  end.

Definition steps (p : page) (es : list event) : page := fold_left step es p.

Definition initial : page :=
  {| user := None; login_name := EmptyString; newName := EmptyString |}.

End UserContext.

(** * Properties *)

(** ** The host functions on examples *)

Section Examples.

Import JS JSON.

Example trim_examples :
  trim "  buy milk  " = "buy milk"
  /\ trim "   " = EmptyString
  /\ trim EmptyString = EmptyString
  /\ trim (String "009" (String "010" "a  b") +:+ String "013" (String "010" EmptyString))
     = "a  b"
  /\ trim (String "194" (String "160" "x")
           +:+ String "226" (String "128" (String "131" EmptyString)))
     = "x"
  /\ trim (String "160" "x") = String "160" "x".
Proof. repeat split. Qed.

Example toString_examples :
  toString 1730505600000 = "1730505600000"
  /\ toString 0 = "0"
  /\ toString (-42) = "-42".
Proof. repeat split. Qed.

Example stringify_example :
  stringify (json_of_todos [mkTodo "1" (String "010" "tea") true; mkTodo "2" "milk" false])
  = "[{" +:+ quote "id" +:+ ":" +:+ quote "1" +:+ "," +:+
    quote "text" +:+ ":" +:+ String dquote (String bslash "ntea") +:+ String dquote "," +:+
    quote "completed" +:+ ":true},{" +:+
    quote "id" +:+ ":" +:+ quote "2" +:+ "," +:+
    quote "text" +:+ ":" +:+ quote "milk" +:+ "," +:+
    quote "completed" +:+ ":false}]".
Proof. reflexivity. Qed.

Example parse_examples :
  parse " [1, -2.5e+3 , null, true, [ ], {}] "
  = Some (JArr [JNum "1"; JNum "-2.5e+3"; JNull; JBool true; JArr []; JObj []])
  /\ parse ("{" +:+ quote "a" +:+ ": [" +:+ quote "b" +:+ "]}")
     = Some (JObj [("a", JArr [JStr "b"])])
  /\ parse "[1,]" = None
  /\ parse "01" = None
  /\ parse "{" = None
  /\ parse "nul" = None
  /\ parse "[] x" = None
  /\ parse EmptyString = None.
Proof. repeat split. Qed.

(** An escaped surrogate pair is one code point, here U+1F600. *)
Example parse_string_surrogates :
  parse_string (String bslash "ud83d" +:+ String bslash "ude00" +:+ String dquote "rest")
  = Some (String "240" (String "159" (String "152" (String "128" EmptyString))), "rest").
Proof. reflexivity. Qed.

End Examples.

(** ** The todo store *)

Section TodoStore.

Implicit Types (l : list Todo) (s : Store) (c : call).

Lemma filter_split (p : Todo -> bool) l :
  length (List.filter (fun t => negb (p t)) l) + length (List.filter p l)
  = length l.
Proof.
  induction l as [|t l IH]; simpl; [reflexivity|].
  destruct (p t); simpl; lia.
Qed.

Lemma stats_sum l :
  active (stats l) + stats_completed (stats l) = total (stats l).
Proof. unfold stats; simpl. apply (filter_split completed). Qed.

(** C1: from any collection and any storage, after every sequence of
    [addTodo], [toggleTodo], [editTodo], [deleteTodo] and [clearCompleted]
    calls the derived statistics satisfy active + completed = total. *)
Theorem stats_invariant : forall l ls (calls : list call),
  List.Forall
    (fun s => active (stats (todos s)) + stats_completed (stats (todos s))
              = total (stats (todos s)))
    (mounted l ls :: trace (mounted l ls) calls).
Proof.
  intros l ls calls. apply List.Forall_forall. intros s _. apply stats_sum.
Qed.

Lemma trace_last (calls : list call) : forall s d,
  List.last (s :: trace s calls) d = run s calls.
Proof.
  induction calls as [|c calls IH]; intros s d; [reflexivity|].
  change (List.last (dispatch s c :: trace (dispatch s c) calls) d
          = run (dispatch s c) calls).
  apply IH.
Qed.

Lemma truthy_empty (t : string) : JS.truthy t = false <-> t = EmptyString.
Proof. destruct t; simpl; split; congruence. Qed.

Lemma truthy_nonempty (t : string) : JS.truthy t = true <-> t <> EmptyString.
Proof. destruct t; simpl; split; congruence. Qed.

Lemma toggle_twice_record (i : string) (t : Todo) :
  let flip := fun todo =>
    if String.eqb (id todo) i
    then {| id := id todo; text := text todo;
            completed := negb (completed todo) |}
    else todo in
  flip (flip t) = t.
Proof.
  destruct t as [ti tt tc]; simpl.
  destruct (String.eqb ti i) eqn:E; simpl; rewrite E; [|reflexivity].
  rewrite negb_involutive. reflexivity.
Qed.

(** C9: two [toggleTodo] calls with the same id, one after the other,
    give back the collection they started from: every record, the one
    with that id among them, has its [completed] value again. *)
Theorem toggleTodo_involution : forall s (i : string),
  todos (dispatch (dispatch s (ToggleTodo i)) (ToggleTodo i)) = todos s.
Proof.
  intros s i; unfold dispatch; simpl.
  rewrite List.map_map.
  induction (todos s) as [|t l IH]; simpl; [reflexivity|].
  rewrite IH. f_equal. apply toggle_twice_record.
Qed.

(** C10: [editTodo] with a text that trims to the empty string leaves the
    instance as it is; with any other text the collection keeps its length
    and its order, a record with the given id keeps its [id] and
    [completed] and has the trimmed text, and any other record is
    unchanged. *)
Theorem editTodo_frame : forall s (i newText : string),
  (JS.trim newText = EmptyString -> dispatch s (EditTodo i newText) = s)
  /\ (JS.trim newText <> EmptyString ->
      length (todos (dispatch s (EditTodo i newText))) = length (todos s)
      /\ forall (n : nat) (t : Todo),
           todos s !! n = Some t ->
           todos (dispatch s (EditTodo i newText)) !! n
           = Some (if String.eqb (id t) i
                   then {| id := id t; text := JS.trim newText;
                           completed := completed t |}
                   else t)).
Proof.
  intros s i newText; unfold dispatch; simpl; unfold editTodo; split; intros H.
  - apply truthy_empty in H. rewrite H. reflexivity.
  - apply truthy_nonempty in H. rewrite H. simpl. split.
    + apply List.length_map.
    + intros n t Hn.
      match goal with |- List.map ?f ?l !! n = _ =>
        change (List.map f l) with (f <$> l) end.
      rewrite list_lookup_fmap, Hn. reflexivity.
Qed.

Lemma editTodo_frame_witness :
  let s := mounted [mkTodo "1" "tea" true; mkTodo "2" "milk" false] ∅ in
  dispatch s (EditTodo "1" "  ") = s
  /\ todos (dispatch s (EditTodo "1" " green tea ")) !! 0
     = Some (mkTodo "1" "green tea" true)
  /\ todos (dispatch s (EditTodo "1" " green tea ")) !! 1
     = Some (mkTodo "2" "milk" false).
Proof.
  intros s. split; [|split].
  - apply (proj1 (editTodo_frame s "1" "  ")). reflexivity.
  - apply (proj2 (proj2 (editTodo_frame s "1" " green tea ")
                   ltac:(discriminate)) 0 (mkTodo "1" "tea" true)).
    reflexivity.
  - apply (proj2 (proj2 (editTodo_frame s "1" " green tea ")
                   ltac:(discriminate)) 1 (mkTodo "2" "milk" false)).
    reflexivity.
Defined.

Lemma to_int_not_nil (n : Z) :
  Z.to_int n <> Decimal.Pos Decimal.Nil /\ Z.to_int n <> Decimal.Neg Decimal.Nil.
Proof.
  destruct n as [|p|p]; simpl; split; try discriminate;
    intros H; injection H as H; exact (DecimalPos.Unsigned.to_uint_nonnil p H).
Qed.

(** The decimal text of an integer determines it. *)
Lemma toString_inj (a b : Z) : JS.toString a = JS.toString b -> a = b.
Proof.
  unfold JS.toString; intros H.
  apply (f_equal NilZero.int_of_string) in H.
  destruct (to_int_not_nil a) as [Ha1 Ha2], (to_int_not_nil b) as [Hb1 Hb2].
  rewrite !NilZero.isi in H by assumption.
  injection H as H. now apply DecimalZ.to_int_inj.
Qed.

Lemma NoDup_snoc {A : Type} (x : A) (l : list A) :
  List.NoDup l -> ~ List.In x l -> List.NoDup (l ++ [x]).
Proof.
  induction 1 as [|y l Hy Hl IH]; simpl; intros Hx.
  - constructor; [simpl; tauto|constructor].
  - constructor.
    + rewrite in_app_iff; simpl. intros [H|[H|[]]]; [tauto|].
      subst; tauto.
    + apply IH. tauto.
Qed.

Lemma NoDup_snoc_inv {A : Type} (x : A) (l : list A) :
  List.NoDup (l ++ [x]) -> List.NoDup l /\ ~ List.In x l.
Proof.
  induction l as [|y l IH]; simpl; intros H.
  - split; [constructor|tauto].
  - inversion H as [|? ? Hy Hl]; subst.
    destruct (IH Hl) as [Hl' Hx]. split.
    + constructor; [|exact Hl']. intros Hin. apply Hy.
      rewrite in_app_iff. now left.
    + intros [->|Hin]; [|tauto]. apply Hy.
      rewrite in_app_iff. right. now left.
Qed.

(** C8, as the code has it: [addTodo] with a text that trims to the empty
    string leaves the instance as it is; with any other text it appends
    one record at the end of the collection, which grows by exactly one:
    its id is the decimal text of the clock reading of the call, its text
    is the trimmed input and it is not completed.  The id is not compared
    with the ids of the collection: the ids are pairwise distinct after
    the call exactly when they were before it and no record had the text
    of the reading as its id, which is so when every id of the collection
    is the text of an earlier reading. *)
Theorem addTodo_spec : forall s (now : Z) (txt : string),
  (JS.trim txt = EmptyString -> dispatch s (AddTodo now txt) = s)
  /\ (JS.trim txt <> EmptyString ->
      todos (dispatch s (AddTodo now txt))
      = todos s ++ [ {| id := JS.toString now; text := JS.trim txt;
                        completed := false |} ]
      /\ length (todos (dispatch s (AddTodo now txt))) = S (length (todos s))
      /\ (List.NoDup (List.map id (todos (dispatch s (AddTodo now txt))))
          <-> List.NoDup (List.map id (todos s))
              /\ ~ List.In (JS.toString now) (List.map id (todos s)))
      /\ ((forall t, List.In t (todos s) ->
                     exists m, id t = JS.toString m /\ (m < now)%Z) ->
          ~ List.In (JS.toString now) (List.map id (todos s)))).
Proof.
  intros s now txt; unfold dispatch; simpl; unfold addTodo; split; intros H.
  - apply truthy_empty in H. rewrite H. reflexivity.
  - apply truthy_nonempty in H. rewrite H. simpl.
    split; [reflexivity|]. split; [rewrite length_app; simpl; lia|].
    split.
    + rewrite List.map_app. simpl. split.
      * apply NoDup_snoc_inv.
      * intros [Hl Hx]. now apply NoDup_snoc.
    + intros Hold Hin. apply List.in_map_iff in Hin.
      destruct Hin as (t & Ht & Hin).
      destruct (Hold t Hin) as (m0 & Hm & Hlt).
      rewrite Hm in Ht. apply toString_inj in Ht. lia.
Qed.

Lemma addTodo_spec_witness :
  let s := mounted [mkTodo "1" "tea" true] ∅ in
  length (todos (dispatch s (AddTodo 5 EmptyString))) = 1
  /\ length (todos (dispatch s (AddTodo 5 "   "))) = 1
  /\ todos (dispatch s (AddTodo 5 "buy milk"))
     = [mkTodo "1" "tea" true; mkTodo "5" "buy milk" false]
  /\ List.NoDup (List.map id (todos (dispatch s (AddTodo 5 "buy milk")))).
Proof.
  intros s. split; [|split; [|split]].
  - rewrite (proj1 (addTodo_spec s 5 EmptyString) eq_refl). reflexivity.
  - rewrite (proj1 (addTodo_spec s 5 "   ") eq_refl). reflexivity.
  - apply (proj2 (addTodo_spec s 5 "buy milk")). discriminate.
  - assert (Hne : JS.trim "buy milk" <> EmptyString) by discriminate.
    destruct (proj2 (addTodo_spec s 5 "buy milk") Hne) as (_ & _ & Hiff & Hold).
    apply Hiff. split.
    + simpl. constructor; [simpl; tauto|constructor].
    + apply Hold. intros t [<-|[]]. exists 1%Z. split; [reflexivity|lia].
Defined.

(** C8, as stated, fails: the id of the appended record need not be
    fresh.  A second [addTodo] in the same millisecond appends a record
    whose id is the id of the record the first one appended. *)
Lemma addTodo_id_not_fresh :
  exists (t t' : Todo),
    JS.trim "buy eggs" <> EmptyString
    /\ List.In t (todos (dispatch (mounted [] ∅)
                           (AddTodo 1730505600000 "buy milk")))
    /\ todos (dispatch (dispatch (mounted [] ∅)
                          (AddTodo 1730505600000 "buy milk"))
                (AddTodo 1730505600000 "buy eggs"))
       = todos (dispatch (mounted [] ∅) (AddTodo 1730505600000 "buy milk"))
         ++ [t']
    /\ id t' = id t.
Proof.
  exists (mkTodo "1730505600000" "buy milk" false),
         (mkTodo "1730505600000" "buy eggs" false).
  split; [discriminate|]. split; [left; reflexivity|].
  split; reflexivity.
Qed.

Lemma adds_distinct_from s (l : list (Z * string)) :
  List.NoDup (List.map id (todos s)) ->
  List.NoDup (List.map fst l) ->
  (forall a, List.In a l -> ~ List.In (JS.toString (fst a)) (List.map id (todos s))) ->
  List.NoDup (List.map id (todos (run s (adds l)))).
Proof.
  revert s; induction l as [|[now txt] l IH]; intros s Hs Hl Hfresh;
    simpl; [assumption|].
  inversion Hl as [|? ? Hnow Hl']; subst.
  apply IH; [| assumption |].
  - unfold dispatch; simpl; unfold addTodo.
    destruct (JS.truthy (JS.trim txt)); simpl; [|assumption].
    rewrite List.map_app; simpl. apply NoDup_snoc; [assumption|].
    apply (Hfresh (now, txt)). now left.
  - intros a Ha. specialize (Hfresh a (or_intror Ha)).
    unfold dispatch; simpl; unfold addTodo.
    destruct (JS.truthy (JS.trim txt)); simpl; [|assumption].
    rewrite List.map_app, in_app_iff; simpl.
    intros [H|[H|[]]]; [tauto|].
    apply toString_inj in H. apply Hnow.
    rewrite H. apply (List.in_map fst _ _ Ha).
Qed.

(** C7, as the code has it: over a sequence of [addTodo] calls whose
    [Date.now()] readings are pairwise distinct, on a collection without
    repeated ids none of which is the decimal text of one of the readings,
    no two records of the collection share an id.  The id is the decimal
    text of the reading, so two calls with the same reading generate the
    same id. *)
Theorem addTodo_ids_distinct : forall l ls (news : list (Z * string)),
  List.NoDup (List.map id l) ->
  List.NoDup (List.map fst news) ->
  (forall a, List.In a news -> ~ List.In (JS.toString (fst a)) (List.map id l)) ->
  List.NoDup (List.map id (todos (run (mounted l ls) (adds news)))).
Proof. intros l ls news. apply (adds_distinct_from (mounted l ls)). Qed.

Lemma addTodo_ids_distinct_witness :
  List.NoDup (List.map id
           (todos (run (mounted [mkTodo "7" "tea" true] ∅)
                     (adds [(8, "milk"); (9, "  "); (10, "eggs")]%Z)))).
Proof.
  apply addTodo_ids_distinct.
  - simpl. constructor; [simpl; tauto|constructor].
  - simpl. repeat constructor; simpl; intuition discriminate.
  - simpl. intros a [<-|[<-|[<-|[]]]]; simpl; intuition discriminate.
Defined.

(** C7, as stated, fails: two [addTodo] calls in the same millisecond
    give two records with the same id. *)
Lemma addTodo_same_tick_collides :
  ~ List.NoDup (List.map id
             (todos (run (mounted [] ∅)
                       [AddTodo 1730505600000 "buy milk";
                        AddTodo 1730505600000 "buy eggs"]))).
Proof.
  intros H. inversion H as [|x l Hin Hl]; subst.
  apply Hin. left. reflexivity.
Qed.

End TodoStore.

(** ** JSON: the fuel of the parser *)

Section Fuel.

Import JS JSON.


Lemma skip_ws_length (s : string) : String.length (skip_ws s) <= String.length s.
Proof.
  induction s as [|c s IH]; simpl; [lia|].
  destruct (is_json_ws c); simpl; lia.
Qed.

Lemma push_length {A : Type} (a : A) (r : option (list A * string)) l rest :
  push a r = Some (l, rest) -> exists l', r = Some (l', rest) /\ l = a :: l'.
Proof.
  destruct r as [[l' rest']|]; simpl; [|discriminate].
  intros H; injection H as <- <-. eauto.
Qed.

Lemma scan_chars_bounded (n : nat) : forall s us r,
  String.length s <= n -> scan_chars s = Some (us, r) -> String.length r < String.length s.
Proof.
  induction n as [|n IHn]; intros s us r Hn.
  { destruct s; [discriminate|simpl in Hn; lia]. }
  assert (IH : forall s' us' r', String.length s' < String.length s ->
            scan_chars s' = Some (us', r') -> String.length r' < String.length s').
  { intros s' us' r' Hs'. apply IHn. lia. }
  clear IHn. revert IH.
  destruct s as [|c s]; simpl; [discriminate|]. intros IH.
  destruct (chr c 34).
  { intros H; injection H as <- <-. lia. }
  destruct (chr c 92).
  - destruct s as [|e r1]; [discriminate|].
    destruct (chr e 117).
    + destruct r1 as [|h1 [|h2 [|h3 [|h4 r2]]]]; try discriminate.
      destruct (unhex4 h1 h2 h3 h4); [|discriminate].
      intros H. apply push_length in H as (l' & H & _).
      apply IH in H; simpl in *; lia.
    + destruct (unescape e); [|discriminate].
      intros H. apply push_length in H as (l' & H & _).
      apply IH in H; simpl in *; lia.
  - destruct (code c <? 32)%N; [discriminate|].
    intros H. apply push_length in H as (l' & H & _).
    apply IH in H; simpl in *; lia.
Qed.

Lemma scan_chars_length (s : string) (us : list unit16) (r : string) :
  scan_chars s = Some (us, r) -> String.length r < String.length s.
Proof. apply (scan_chars_bounded (String.length s)). lia. Qed.

Lemma parse_string_length (s x r : string) :
  parse_string s = Some (x, r) -> String.length r < String.length s.
Proof.
  unfold parse_string. destruct (scan_chars s) as [[us r']|] eqn:E; [|discriminate].
  intros H; injection H as _ <-. eapply scan_chars_length, E.
Qed.

Lemma span_digits_length (s : string) : forall d r,
  span_digits s = (d, r) -> String.length r <= String.length s.
Proof.
  induction s as [|c s IH]; simpl; intros d r.
  - intros H; injection H as _ <-. simpl; lia.
  - destruct (is_digit c).
    + destruct (span_digits s) as [d' r'] eqn:E.
      intros H; injection H as _ <-. specialize (IH _ _ eq_refl). lia.
    + intros H; injection H as _ <-. simpl; lia.
Qed.

Lemma parse_number_length (s lit r : string) :
  parse_number s = Some (lit, r) -> String.length r < String.length s.
Proof.
  unfold parse_number.
  set (p := match s with
            | EmptyString => (EmptyString, s)
            | String c r0 => if chr c 45 then (String c EmptyString, r0) else (EmptyString, s)
            end).
  assert (Hp : String.length (snd p) <= String.length s).
  { subst p. destruct s as [|c r0]; simpl; [lia|]. destruct (chr c 45); simpl; lia. }
  destruct p as [sign s1]. simpl in Hp.
  destruct (parse_int s1) as [[i s2]|] eqn:Ei; [|discriminate].
  assert (H2 : String.length s2 < String.length s1).
  { unfold parse_int in Ei. destruct s1 as [|c r1]; [discriminate|].
    destruct (chr c 48).
    - injection Ei as _ <-. simpl; lia.
    - destruct (is_digit c); [|discriminate].
      destruct (span_digits r1) as [d r'] eqn:Ed. injection Ei as _ <-.
      apply span_digits_length in Ed. simpl; lia. }
  destruct (parse_frac s2) as [[f s3]|] eqn:Ef; [|discriminate].
  assert (H3 : String.length s3 <= String.length s2).
  { unfold parse_frac in Ef. destruct s2 as [|c r2].
    - injection Ef as _ <-. lia.
    - destruct (chr c 46).
      + destruct (span_digits r2) as [d r'] eqn:Ed. destruct d; [discriminate|].
        injection Ef as _ <-. apply span_digits_length in Ed. simpl; lia.
      + injection Ef as _ <-. lia. }
  destruct (parse_exp s3) as [[e s4]|] eqn:Ee; [|discriminate].
  assert (H4 : String.length s4 <= String.length s3).
  { unfold parse_exp in Ee. destruct s3 as [|c r3].
    - injection Ee as _ <-. lia.
    - destruct (chr c 101 || chr c 69).
      + set (q := match r3 with
                  | EmptyString => (EmptyString, r3)
                  | String g r' =>
                      if chr g 43 || chr g 45 then (String g EmptyString, r')
                      else (EmptyString, r3)
                  end) in Ee.
        assert (Hq : String.length (snd q) <= String.length r3).
        { subst q. destruct r3 as [|g r']; simpl; [lia|].
          destruct (chr g 43 || chr g 45); simpl; lia. }
        destruct q as [sg r1]. simpl in Hq.
        destruct (span_digits r1) as [d r'] eqn:Ed. destruct d; [discriminate|].
        injection Ee as _ <-. apply span_digits_length in Ed. simpl; lia.
      + injection Ee as _ <-. lia. }
  intros H; injection H as _ <-. lia.
Qed.

Lemma strip_length (p : string) : forall s r,
  strip p s = Some r -> String.length s = String.length p + String.length r.
Proof.
  induction p as [|a p IH]; simpl; intros s r.
  - intros H; injection H as <-. reflexivity.
  - destruct s as [|b s]; [discriminate|].
    destruct (Ascii.eqb a b); [|discriminate].
    intros H. apply IH in H. simpl; lia.
Qed.

Local Arguments strip : simpl never.
Local Arguments parse_number : simpl never.
Local Arguments parse_string : simpl never.

Lemma fuel_enough (n : nat) :
  (forall s v r, parse_value n s = Some (v, r) ->
     String.length r < String.length s
     /\ forall m, String.length s - String.length r <= m -> parse_value m s = Some (v, r))
  /\ (forall s l r, parse_elements n s = Some (l, r) ->
     String.length r < String.length s
     /\ forall m, String.length s - String.length r <= m -> parse_elements m s = Some (l, r))
  /\ (forall s l r, parse_members n s = Some (l, r) ->
     String.length r < String.length s
     /\ forall m, String.length s - String.length r <= m -> parse_members m s = Some (l, r)).
Proof.
  induction n as [|n (IHv & IHe & IHm)]; [repeat split; discriminate|].
  split; [|split].
  - intros s v r H. simpl in H.
    pose proof (skip_ws_length s) as Hs.
    destruct (skip_ws s) as [|c r0] eqn:Es; [discriminate|]. simpl in Hs.
    destruct (chr c 34) eqn:E34.
    { destruct (parse_string r0) as [[str rest]|] eqn:Ep; [|discriminate].
      injection H as <- <-. pose proof (parse_string_length _ _ _ Ep).
      split; [lia|]. intros [|m] Hm; [lia|]. simpl. rewrite Es, E34, Ep. reflexivity. }
    destruct (chr c 91) eqn:E91.
    { pose proof (skip_ws_length r0) as Hr0.
      destruct (skip_ws r0) as [|c' r'] eqn:Er0; [discriminate|]. simpl in Hr0.
      destruct (chr c' 93) eqn:E93.
      - injection H as <- <-. split; [lia|].
        intros [|m] Hm; [lia|]. simpl. rewrite Es, E34, E91, Er0, E93. reflexivity.
      - destruct (parse_elements n r0) as [[l rest]|] eqn:Ee; [|discriminate].
        injection H as <- <-. destruct (IHe _ _ _ Ee) as [Hl Hf].
        split; [lia|]. intros [|m] Hm; [lia|]. simpl.
        rewrite Es, E34, E91, Er0, E93, Hf by lia. reflexivity. }
    destruct (chr c 123) eqn:E123.
    { pose proof (skip_ws_length r0) as Hr0.
      destruct (skip_ws r0) as [|c' r'] eqn:Er0; [discriminate|]. simpl in Hr0.
      destruct (chr c' 125) eqn:E125.
      - injection H as <- <-. split; [lia|].
        intros [|m] Hm; [lia|]. simpl. rewrite Es, E34, E91, E123, Er0, E125. reflexivity.
      - destruct (parse_members n r0) as [[l rest]|] eqn:Ee; [|discriminate].
        injection H as <- <-. destruct (IHm _ _ _ Ee) as [Hl Hf].
        split; [lia|]. intros [|m] Hm; [lia|]. simpl.
        rewrite Es, E34, E91, E123, Er0, E125, Hf by lia. reflexivity. }
    destruct (strip "null" (String c r0)) as [rest|] eqn:En.
    { injection H as <- <-. pose proof (strip_length _ _ _ En) as Hl. simpl in Hl.
      split; [lia|]. intros [|m] Hm; [lia|]. simpl. rewrite Es, E34, E91, E123.
      rewrite En. reflexivity. }
    destruct (strip "true" (String c r0)) as [rest|] eqn:Et.
    { injection H as <- <-. pose proof (strip_length _ _ _ Et) as Hl. simpl in Hl.
      split; [lia|]. intros [|m] Hm; [lia|]. simpl. rewrite Es, E34, E91, E123.
      rewrite En, Et. reflexivity. }
    destruct (strip "false" (String c r0)) as [rest|] eqn:Ef.
    { injection H as <- <-. pose proof (strip_length _ _ _ Ef) as Hl. simpl in Hl.
      split; [lia|]. intros [|m] Hm; [lia|]. simpl. rewrite Es, E34, E91, E123.
      rewrite En, Et, Ef. reflexivity. }
    destruct (parse_number (String c r0)) as [[lit rest]|] eqn:Ed; [|discriminate].
    injection H as <- <-. pose proof (parse_number_length _ _ _ Ed) as Hl. simpl in Hl.
    split; [lia|]. intros [|m] Hm; [lia|]. simpl. rewrite Es, E34, E91, E123.
    rewrite En, Et, Ef, Ed. reflexivity.
  - intros s l r H. simpl in H.
    destruct (parse_value n s) as [[v r1]|] eqn:Ev; [|discriminate].
    destruct (IHv _ _ _ Ev) as [Hl Hf].
    pose proof (skip_ws_length r1) as Hr1.
    destruct (skip_ws r1) as [|c r'] eqn:Er1; [discriminate|]. simpl in Hr1.
    destruct (chr c 44) eqn:E44.
    + apply push_length in H as (l' & H & ->).
      destruct (IHe _ _ _ H) as [Hl' Hf'].
      split; [lia|]. intros [|m] Hm; [lia|]. simpl.
      rewrite Hf, Er1, E44, Hf' by lia. reflexivity.
    + destruct (chr c 93) eqn:E93; [|discriminate].
      injection H as <- <-. split; [lia|].
      intros [|m] Hm; [lia|]. simpl. rewrite Hf, Er1, E44, E93 by lia. reflexivity.
  - intros s l r H. simpl in H.
    pose proof (skip_ws_length s) as Hs.
    destruct (skip_ws s) as [|q r0] eqn:Es; [discriminate|]. simpl in Hs.
    destruct (chr q 34) eqn:E34; [|discriminate].
    destruct (parse_string r0) as [[k r1]|] eqn:Ep; [|discriminate].
    pose proof (parse_string_length _ _ _ Ep) as Hk.
    pose proof (skip_ws_length r1) as Hr1.
    destruct (skip_ws r1) as [|c1 r2] eqn:Er1; [discriminate|]. simpl in Hr1.
    destruct (chr c1 58) eqn:E58; [|discriminate].
    destruct (parse_value n r2) as [[v r3]|] eqn:Ev; [|discriminate].
    destruct (IHv _ _ _ Ev) as [Hl Hf].
    pose proof (skip_ws_length r3) as Hr3.
    destruct (skip_ws r3) as [|c2 r4] eqn:Er3; [discriminate|]. simpl in Hr3.
    destruct (chr c2 44) eqn:E44.
    + apply push_length in H as (l' & H & ->).
      destruct (IHm _ _ _ H) as [Hl' Hf'].
      split; [lia|]. intros [|m] Hm; [lia|]. simpl.
      rewrite Es, E34, Ep, Er1, E58, Hf, Er3, E44, Hf' by lia. reflexivity.
    + destruct (chr c2 125) eqn:E125; [|discriminate].
      injection H as <- <-. split; [lia|].
      intros [|m] Hm; [lia|]. simpl.
      rewrite Es, E34, Ep, Er1, E58, Hf, Er3, E44, E125 by lia. reflexivity.
Qed.

(** The fuel [parse] gives is enough: a value that some fuel finds is the
    value [parse] finds. *)
Lemma parse_fuel_enough (fuel : nat) (text : string) (v : json) (rest : string) :
  parse_value fuel text = Some (v, rest) ->
  parse_value (2 * String.length text + 2) text = Some (v, rest).
Proof.
  intros H. destruct (fuel_enough fuel) as (Hv & _ & _).
  destruct (Hv _ _ _ H) as [_ Hf]. apply Hf. lia.
Qed.


(** [parse] finds exactly the values that some fuel finds at the end of
    the text. *)
Lemma parse_spec (text : string) (v : json) :
  parse text = Some v
  <-> exists fuel rest, parse_value fuel text = Some (v, rest)
                        /\ skip_ws rest = EmptyString.
Proof.
  unfold parse; split.
  - destruct (parse_value _ text) as [[v' rest]|] eqn:E; [|discriminate].
    destruct (skip_ws rest) eqn:R; [|discriminate].
    intros H; injection H as <-. eauto.
  - intros (fuel & rest & H & R).
    rewrite (parse_fuel_enough _ _ _ _ H), R. reflexivity.
Qed.

End Fuel.

(** ** JSON: the text of a collection reads back as the collection *)

Section JsonRoundTrip.

Import JS JSON.

Lemma append_assoc (a b c : string) : (a +:+ b) +:+ c = a +:+ (b +:+ c).
Proof.
  induction a as [|x a IH]; [reflexivity|].
  change (String x ((a +:+ b) +:+ c) = String x (a +:+ (b +:+ c))).
  now rewrite IH.
Qed.

Lemma scan_escape (c : ascii) (r : string) :
  scan_chars (escape_char c +:+ r) = push (unit_of c) (scan_chars r).
Proof. destruct c as [[] [] [] [] [] [] [] []]; reflexivity. Qed.

Lemma scan_quote_chars (s rest : string) :
  scan_chars (quote_chars s +:+ String dquote rest)
  = Some (List.map unit_of (list_ascii_of_string s), rest).
Proof.
  induction s as [|c s IH]; [reflexivity|].
  change (quote_chars (String c s)) with (escape_char c +:+ quote_chars s).
  rewrite append_assoc, scan_escape, IH. reflexivity.
Qed.

Lemma decode_esc (n : N) (us : list unit16) :
  is_high n = false -> decode_units (Esc n :: us) = utf8 n +:+ decode_units us.
Proof. intros H. destruct us as [|[c|lo] r]; simpl; rewrite ?H; reflexivity. Qed.

Lemma decode_unit_of (c : ascii) (us : list unit16) :
  decode_units (unit_of c :: us) = String c (decode_units us).
Proof.
  unfold unit_of.
  destruct ((code c <? 32)%N && _)%bool eqn:E; [|reflexivity].
  apply andb_true_iff in E as [E _]. apply N.ltb_lt in E.
  rewrite decode_esc.
  - unfold utf8. replace (code c <? 128)%N with true by (symmetry; apply N.ltb_lt; lia).
    unfold byte, code. rewrite ascii_N_embedding. reflexivity.
  - unfold is_high. apply andb_false_iff. left. apply N.leb_gt. lia.
Qed.

Lemma decode_units_of (s : string) :
  decode_units (List.map unit_of (list_ascii_of_string s)) = s.
Proof.
  induction s as [|c s IH]; [reflexivity|].
  simpl List.map. rewrite decode_unit_of, IH. reflexivity.
Qed.

Lemma parse_string_quote (s rest : string) :
  parse_string (quote_chars s +:+ String dquote rest) = Some (s, rest).
Proof. unfold parse_string. rewrite scan_quote_chars, decode_units_of. reflexivity. Qed.

Local Arguments parse_string : simpl never.

Lemma parse_value_string (n : nat) (s rest : string) :
  parse_value (S n) (quote s +:+ rest) = Some (JStr s, rest).
Proof.
  unfold quote.
  change (String dquote (quote_chars s +:+ String dquote EmptyString) +:+ rest)
    with (String dquote ((quote_chars s +:+ String dquote EmptyString) +:+ rest)).
  rewrite append_assoc.
  change (String dquote EmptyString +:+ rest) with (String dquote rest).
  remember (quote_chars s +:+ String dquote rest) as X eqn:EX.
  simpl. subst X. rewrite parse_string_quote. reflexivity.
Qed.

Lemma parse_value_bool (n : nat) (b : bool) (rest : string) :
  parse_value (S n) (stringify (JBool b) +:+ rest) = Some (JBool b, rest).
Proof. destruct b; reflexivity. Qed.

Lemma parse_members_member (n : nat) (k rest : string) :
  parse_members (S n) (quote k +:+ ":" +:+ rest)
  = after_member n k (parse_value n rest).
Proof.
  unfold quote.
  change (String dquote (quote_chars k +:+ String dquote EmptyString) +:+ ":" +:+ rest)
    with (String dquote ((quote_chars k +:+ String dquote EmptyString) +:+ ":" +:+ rest)).
  rewrite append_assoc.
  change (String dquote EmptyString +:+ ":" +:+ rest) with (String dquote (String ":" rest)).
  remember (quote_chars k +:+ String dquote (String ":" rest)) as X eqn:EX.
  simpl. subst X. rewrite parse_string_quote. reflexivity.
Qed.

Lemma after_member_comma (n : nat) (k : string) (v : json) (rest : string) :
  after_member n k (Some (v, "," +:+ rest)) = push (k, v) (parse_members n rest).
Proof. reflexivity. Qed.

Lemma after_member_close (n : nat) (k : string) (v : json) (rest : string) :
  after_member n k (Some (v, String "}" rest)) = Some ([(k, v)], rest).
Proof. reflexivity. Qed.

Lemma stringify_Todo (t : Todo) (rest : string) :
  stringify (json_of_Todo t) +:+ rest
  = String "{"
      (quote "id" +:+ ":" +:+ quote (id t) +:+ "," +:+
       quote "text" +:+ ":" +:+ quote (text t) +:+ "," +:+
       quote "completed" +:+ ":" +:+ stringify (JBool (completed t)) +:+
       String "}" rest).
Proof.
  unfold json_of_Todo.
  cbn [fields stringify fst snd]. rewrite !append_assoc. reflexivity.
Qed.

Lemma parse_value_Todo (m : nat) (t : Todo) (rest : string) :
  5 <= m ->
  parse_value m (stringify (json_of_Todo t) +:+ rest)
  = Some (json_of_Todo t, rest).
Proof.
  intros Hm. destruct m as [|[|[|[|[|n]]]]]; try lia. clear Hm.
  rewrite stringify_Todo.
  remember (quote "id" +:+ _) as X eqn:EX.
  assert (HX : exists Y, X = String dquote Y).
  { subst X. eexists. reflexivity. }
  destruct HX as [Y HY].
  assert (parse_value (S (S (S (S (S n))))) (String "{" X)
          = match parse_members (S (S (S (S n)))) X with
            | Some (l, rest) => Some (JObj l, rest)
            | None => None
            end) as ->.
  { rewrite HY. reflexivity. }
  subst X.
  rewrite parse_members_member, parse_value_string, after_member_comma.
  rewrite parse_members_member, parse_value_string, after_member_comma.
  rewrite parse_members_member, parse_value_bool, after_member_close.
  reflexivity.
Qed.

Lemma parse_elements_S (n : nat) (s : string) :
  parse_elements (S n) s = after_element n (parse_value n s).
Proof. reflexivity. Qed.

Lemma after_element_comma (n : nat) (v : json) (rest : string) :
  after_element n (Some (v, String "," rest)) = push v (parse_elements n rest).
Proof. reflexivity. Qed.

Lemma after_element_close (n : nat) (v : json) (rest : string) :
  after_element n (Some (v, String "]" rest)) = Some ([v], rest).
Proof. reflexivity. Qed.

(** The text of the elements of a non-empty array of todos. *)
Lemma elements_cons (t : Todo) (l : list Todo) (rest : string) :
  elements stringify (List.map json_of_Todo (t :: l)) +:+ rest
  = stringify (json_of_Todo t) +:+
      match l with
      | [] => String "]" rest
      | _ :: _ => String "," (elements stringify (List.map json_of_Todo l) +:+ rest)
      end.
Proof.
  destruct l as [|t' l]; cbn [List.map elements]; rewrite !append_assoc; reflexivity.
Qed.

Lemma parse_elements_todos (l : list Todo) : forall (t : Todo) (n : nat) (rest : string),
  parse_elements (length l + 6 + n)
    (elements stringify (List.map json_of_Todo (t :: l)) +:+ rest)
  = Some (List.map json_of_Todo (t :: l), rest).
Proof.
  induction l as [|t' l IH]; intros t n rest; rewrite elements_cons.
  - change (length [] + 6 + n) with (S (S (S (S (S (S n)))))).
    rewrite parse_elements_S, parse_value_Todo by lia. reflexivity.
  - change (length (t' :: l) + 6 + n) with (S (length l + 6 + n)).
    rewrite parse_elements_S.
    rewrite parse_value_Todo by lia.
    rewrite after_element_comma, IH. reflexivity.
Qed.

Lemma append_nil_r (a : string) : a +:+ EmptyString = a.
Proof.
  induction a as [|x a IH]; [reflexivity|].
  change (String x (a +:+ EmptyString) = String x a). now rewrite IH.
Qed.

Lemma stringify_Todo_head (t : Todo) :
  exists Y, stringify (json_of_Todo t) = String "{" (String dquote Y).
Proof. eexists. reflexivity. Qed.

Lemma parse_value_array (n : nat) (X Y : string) :
  X = String "{" Y ->
  parse_value (S n) (String "[" X)
  = match parse_elements n X with
    | Some (l, rest) => Some (JArr l, rest)
    | None => None
    end.
Proof. intros ->. reflexivity. Qed.

(** [JSON.parse(JSON.stringify(todos))] is [todos]. *)
Lemma parse_stringify_todos (l : list Todo) :
  parse (stringify (json_of_todos l)) = Some (json_of_todos l).
Proof.
  destruct l as [|t l]; [reflexivity|].
  apply parse_spec. exists (S (length l + 6 + 0)), EmptyString.
  split; [|reflexivity].
  unfold json_of_todos.
  change (stringify (JArr ?items)) with (String "[" (elements stringify items)).
  remember (elements stringify (List.map json_of_Todo (t :: l))) as X eqn:EX.
  assert (HX : exists Y, X = String "{" Y).
  { subst X. rewrite <- (append_nil_r (elements _ _)), elements_cons.
    destruct (stringify_Todo_head t) as [Y ->]. eexists. reflexivity. }
  destruct HX as [Y HY].
  rewrite (parse_value_array _ X Y HY).
  subst X. rewrite <- (append_nil_r (elements _ _)).
  rewrite parse_elements_todos. reflexivity.
Qed.

Lemma stringify_todos_truthy (l : list Todo) :
  JS.truthy (stringify (json_of_todos l)) = true.
Proof. reflexivity. Qed.

End JsonRoundTrip.

(** ** Persistence *)

Section Persistence.

Implicit Types (l : list Todo) (s : Store) (c : call).

Lemma json_of_todos_inj l1 l2 : json_of_todos l1 = json_of_todos l2 -> l1 = l2.
Proof.
  unfold json_of_todos; intros H; injection H as H.
  revert l2 H; induction l1 as [|[i1 t1 c1] l1 IH]; intros [|[i2 t2 c2] l2] H;
    try discriminate; [reflexivity|].
  injection H as -> -> -> H. f_equal. now apply IH.
Qed.

(** A fresh instance started on what the effect saved has the saved
    collection as its state. *)
Lemma initial_after_save l (ls : gmap string string) :
  useTodos_initial (save_todos l ls) = Normal (json_of_todos l).
Proof.
  unfold useTodos_initial, save_todos. rewrite lookup_insert_eq.
  rewrite stringify_todos_truthy. unfold JSON_parse.
  rewrite parse_stringify_todos. reflexivity.
Qed.

Lemma mounted_in_sync l (ls : gmap string string) : in_sync (mounted l ls).
Proof. unfold in_sync, mounted, save_todos; simpl. apply lookup_insert_eq. Qed.

Lemma dispatch_in_sync s c : in_sync s -> in_sync (dispatch s c).
Proof.
  unfold dispatch. destruct (handler c (todos s)) as [l|]; [|trivial].
  intros _. unfold in_sync, save_todos; simpl. apply lookup_insert_eq.
Qed.

Lemma run_in_sync (calls : list call) : forall s, in_sync s -> in_sync (run s calls).
Proof.
  induction calls as [|c calls IH]; intros s H; simpl; [assumption|].
  apply IH, dispatch_in_sync, H.
Qed.

Lemma initial_in_sync s :
  in_sync s -> useTodos_initial (localStorage s) = Normal (json_of_todos (todos s)).
Proof.
  unfold in_sync, useTodos_initial. intros ->.
  rewrite stringify_todos_truthy. unfold JSON_parse.
  rewrite parse_stringify_todos. reflexivity.
Qed.

(** C3: on a mounted instance, after any call ([addTodo], [toggleTodo],
    [editTodo], [deleteTodo] or [clearCompleted]) that follows any earlier
    calls, a fresh instance initialised from the storage starts from the
    collection the call left in memory, and from no other. *)
Theorem persistence_round_trip : forall l ls (calls : list call) c,
  let s' := dispatch (run (mounted l ls) calls) c in
  forall l', useTodos_initial (localStorage s') = Normal (json_of_todos l')
             <-> l' = todos s'.
Proof.
  intros l ls calls c s' l'.
  assert (H : in_sync s')
    by apply dispatch_in_sync, run_in_sync, mounted_in_sync.
  rewrite (initial_in_sync s' H). split.
  - intros E. apply json_of_todos_inj. congruence.
  - now intros ->.
Qed.

(** Without a stored text, or with the empty text, [useTodos] starts from
    the empty collection. *)
Lemma useTodos_initial_absent (ls : gmap string string) :
  ls !! "todos" = None \/ ls !! "todos" = Some EmptyString ->
  useTodos_initial ls = Normal (JSON.JArr []).
Proof. unfold useTodos_initial. intros [-> | ->]; reflexivity. Qed.

(** [useTodos] hands the SyntaxError of [JSON.parse] on to its caller. *)
Lemma useTodos_initial_throws (ls : gmap string string) (saved : string) :
  ls !! "todos" = Some saved -> saved <> EmptyString ->
  JSON.parse saved = None ->
  exists e, useTodos_initial ls = Throw e.
Proof.
  unfold useTodos_initial, JSON_parse. intros -> Hne ->.
  apply truthy_nonempty in Hne. rewrite Hne. eexists. reflexivity.
Qed.

(** [useLocalStorage] never throws, and starts from [initialValue] when
    there is no [window], no stored text, an empty one or one that is not
    JSON. *)
Lemma useLocalStorage_initial_total (window : option (gmap string string))
    (key : string) (initialValue : JSON.json) :
  exists v, useLocalStorage_initial window key initialValue = Normal v.
Proof.
  unfold useLocalStorage_initial, try_catch, JSON_parse.
  destruct window as [storage|]; [|eauto].
  destruct (storage !! key) as [item|]; [|eauto].
  destruct (JS.truthy item); [|eauto].
  destruct (JSON.parse item); eauto.
Qed.

Lemma useLocalStorage_initial_default (storage : gmap string string)
    (key : string) (initialValue : JSON.json) :
  storage !! key = None
  \/ (exists item, storage !! key = Some item
                   /\ (item = EmptyString \/ JSON.parse item = None)) ->
  useLocalStorage_initial (Some storage) key initialValue = Normal initialValue.
Proof.
  unfold useLocalStorage_initial, try_catch, JSON_parse.
  intros [-> | (item & -> & [-> | H])]; try reflexivity.
  rewrite H. destruct (JS.truthy item); reflexivity.
Qed.

Lemma useLocalStorage_initial_stored (storage : gmap string string)
    (key item : string) (initialValue v : JSON.json) :
  storage !! key = Some item -> JSON.parse item = Some v ->
  useLocalStorage_initial (Some storage) key initialValue = Normal v.
Proof.
  unfold useLocalStorage_initial, try_catch, JSON_parse. intros -> H.
  destruct item as [|a item]; [discriminate H|]. simpl. rewrite H. reflexivity.
Qed.

(** C4, where the code departs from it: the text [undefined] under the
    key [todos] is not JSON, whatever the fuel of the parser; on it
    [useLocalStorage] starts from its default value and [useTodos] throws
    the SyntaxError to its caller. *)
Theorem useTodos_initial_malformed :
  let storage : gmap string string := {[ "todos" := "undefined" ]} in
  (forall fuel, JSON.parse_value fuel "undefined" = None)
  /\ useLocalStorage_initial (Some storage) "todos" (JSON.JArr [])
     = Normal (JSON.JArr [])
  /\ useTodos_initial storage = Throw (AnError (mkError "SyntaxError")).
Proof.
  intros storage. split; [|split].
  - intros [|fuel]; reflexivity.
  - reflexivity.
  - reflexivity.
Qed.

End Persistence.

(** ** [useFetch] *)

Section FetchFacts.

Import Fetch.

Implicit Types (s : state) (e : event) (o : settlement) (k : nat).

Lemma flag_set_data k (v : JSON.json) s : flag k (set_data v s) = flag k s.
Proof. reflexivity. Qed.

Lemma flag_set_error k (v : option JsError) s : flag k (set_error v s) = flag k s.
Proof. reflexivity. Qed.

(** The cases of [settle k o s]: how the [try] block ends, and whether run
    [k] is still the one whose updates count. *)
Ltac settle_cases k o s :=
  unfold settle, on_finally, on_success, on_catch;
  destruct (try_block o); destruct (flag k s) eqn:?; cbn iota;
  repeat (rewrite flag_set_data || rewrite flag_set_error);
  repeat match goal with H : flag k s = _ |- _ => rewrite ?H; clear H end;
  cbn iota.

(** *** Data and error *)

Lemma settle_exclusive k o s :
  data s = JSON.JNull \/ error s = None ->
  data (settle k o s) = JSON.JNull \/ error (settle k o s) = None.
Proof. settle_cases k o s; simpl; auto. Qed.

Lemma step_exclusive s e :
  data s = JSON.JNull \/ error s = None ->
  data (step s e) = JSON.JNull \/ error (step s e) = None.
Proof.
  destruct e as [url options|k o|]; simpl.
  - unfold render. destruct (negb (alive s)); [trivial|].
    destruct (same_deps _ _); trivial.
  - apply settle_exclusive.
  - unfold unmount. destruct (negb (alive s)); trivial.
Qed.

Lemma steps_exclusive (es : list event) : forall s,
  data s = JSON.JNull \/ error s = None ->
  data (steps s es) = JSON.JNull \/ error (steps s es) = None.
Proof.
  induction es as [|e es IH]; intros s H; simpl; [assumption|].
  apply IH, step_exclusive, H.
Qed.

(** C6: in every state an instance reaches from its first render, by any
    renders with the same or another key, any ends of any requests and
    its removal, [data] is null or [error] is null: the two are never
    both set. *)
Theorem data_error_exclusive : forall (url : string) (options : JSON.json)
    (es : list event),
  let s := steps (mount url options) es in
  data s = JSON.JNull \/ error s = None.
Proof.
  intros url options es s. apply steps_exclusive. left. reflexivity.
Qed.

(** *** Superseded requests *)

Lemma settle_stale_id k o s : flag k s = false -> settle k o s = s.
Proof.
  intros F. unfold settle, on_finally, on_success, on_catch.
  destruct (try_block o); rewrite !F; reflexivity.
Qed.

Lemma flag_settle k k' o s : flag k (settle k' o s) = flag k s.
Proof. settle_cases k' o s; reflexivity. Qed.

Lemma requests_settle k o s : requests (settle k o s) = requests s.
Proof. settle_cases k o s; reflexivity. Qed.

Lemma alive_settle k o s : alive (settle k o s) = alive s.
Proof. settle_cases k o s; reflexivity. Qed.

Lemma flag_cleanup k s :
  flag k (cleanup s) = if decide (current s = k) then false else flag k s.
Proof.
  unfold flag, cleanup; simpl. rewrite lookup_insert.
  destruct (decide (current s = k)); reflexivity.
Qed.

Lemma flag_effect k (url : string) (options : JSON.json) s :
  flag k (effect url options s)
  = if decide (length (requests s) = k) then true else flag k s.
Proof.
  unfold flag, effect; simpl. rewrite lookup_insert.
  destruct (decide (length (requests s) = k)); reflexivity.
Qed.

Lemma stale_cleanup k s : stale k s -> stale k (cleanup s).
Proof.
  intros [Hk F]; split; [exact Hk|].
  rewrite flag_cleanup. destruct (decide _); [reflexivity|exact F].
Qed.

Lemma stale_effect k (url : string) (options : JSON.json) s :
  stale k s -> stale k (effect url options s).
Proof.
  intros [Hk F]; split.
  - simpl. rewrite length_app. simpl. lia.
  - rewrite flag_effect. destruct (decide _); [lia|exact F].
Qed.

Lemma stale_step k s e : stale k s -> stale k (step s e).
Proof.
  destruct e as [url options|k' o|]; simpl; intros H.
  - unfold render. destruct (negb (alive s)); [exact H|].
    destruct (same_deps _ _); [exact H|].
    apply stale_effect, stale_cleanup, H.
  - destruct H as [Hk F]; split.
    + rewrite requests_settle. exact Hk.
    + rewrite flag_settle. exact F.
  - unfold unmount. destruct (negb (alive s)); [exact H|].
    apply stale_cleanup in H. exact H.
Qed.

Lemma stale_steps k (es : list event) : forall s, stale k s -> stale k (steps s es).
Proof.
  induction es as [|e es IH]; intros s H; simpl; [exact H|].
  apply IH, stale_step, H.
Qed.

Lemma wf_mount (url : string) (options : JSON.json) : wf (mount url options).
Proof. repeat split; simpl; auto; discriminate. Qed.

Lemma current_effect (url : string) (options : JSON.json) s :
  current (effect url options s) = length (requests s).
Proof. unfold current; simpl. rewrite length_app; simpl. lia. Qed.

Lemma wf_step s e : wf s -> wf (step s e).
Proof.
  intros W. pose proof W as (Hn & Hd & Ha).
  destruct e as [url options|k o|]; simpl.
  - unfold render. destruct (alive s) eqn:A; simpl; [|exact W].
    destruct (same_deps _ _); [exact W|].
    split; [|split].
    + simpl. rewrite length_app; simpl. lia.
    + simpl. rewrite A. discriminate.
    + intros _. rewrite current_effect, flag_effect. simpl.
      destruct (decide _); [reflexivity|contradiction].
  - unfold wf, current. rewrite requests_settle, flag_settle, alive_settle.
    exact W.
  - unfold unmount. destruct (alive s) eqn:A; simpl; [|exact W].
    split; [exact Hn|]. split; [|discriminate].
    intros _. unfold flag, current; simpl. rewrite lookup_insert_eq. reflexivity.
Qed.

Lemma wf_steps (es : list event) : forall s, wf s -> wf (steps s es).
Proof.
  induction es as [|e es IH]; intros s H; simpl; [exact H|].
  apply IH, wf_step, H.
Qed.

(** After a render with another key the run that was current is stale. *)
Lemma render_supersedes (url : string) (options : JSON.json) s :
  wf s -> same_deps (deps s) (key url options) = false ->
  stale (current s) (render url options s).
Proof.
  intros (Hn & Hd & Ha) K. unfold render. rewrite K.
  destruct (alive s) eqn:A; simpl.
  - apply stale_effect. split.
    + unfold current; simpl. lia.
    + rewrite flag_cleanup. destruct (decide _); [reflexivity|contradiction].
  - split; [unfold current; lia|]. apply Hd. reflexivity.
Qed.

Lemma result_settle_current k o s :
  flag k s = true -> result (settle k o s) = result_of o.
Proof.
  intros F. unfold result_of. settle_cases k o s; try discriminate; reflexivity.
Qed.

(** C2: let the key change while the request of the current run of the
    effect is pending.  Whenever that request ends, after any further
    events, the state is what it was before; and when the request of the
    new run ends as [o2], before or after the old one ends as [o1], the
    hook returns what [o2] alone determines. *)
Theorem superseded_request_ignored : forall (url1 : string)
    (options1 : JSON.json) (es : list event) (url : string)
    (options : JSON.json) o1,
  let s := steps (mount url1 options1) es in
  let s' := render url options s in
  same_deps (deps s) (key url options) = false ->
  (forall later : list event,
     settle (current s) o1 (steps s' later) = steps s' later)
  /\ (alive s = true -> forall o2,
        result (settle (current s) o1 (settle (current s') o2 s')) = result_of o2
        /\ result (settle (current s') o2 (settle (current s) o1 s')) = result_of o2).
Proof.
  intros url1 options1 es url options o1 s s' K.
  assert (W : wf s) by apply wf_steps, wf_mount.
  assert (St : stale (current s) s') by now apply render_supersedes.
  split.
  - intros later. apply settle_stale_id.
    exact (proj2 (stale_steps _ later _ St)).
  - intros A o2.
    assert (W' : wf s') by exact (wf_step s (Render url options) W).
    assert (A' : alive s' = true).
    { unfold s', render. rewrite A, K. simpl. exact A. }
    assert (F' : flag (current s') s' = true) by now apply W'.
    split.
    + rewrite settle_stale_id.
      * now apply result_settle_current.
      * rewrite flag_settle. exact (proj2 St).
    + rewrite (settle_stale_id (current s) o1 s') by exact (proj2 St).
      now apply result_settle_current.
Qed.

Lemma superseded_request_ignored_witness :
  let slow := Response true 200 (inr (JSON.JObj [("title", JSON.JStr "old")])) in
  let fast := Response true 200 (inr (JSON.JObj [("title", JSON.JStr "new")])) in
  let s' := render "/posts/B" (JSON.JObj []) (mount "/posts/A" (JSON.JObj [])) in
  result (settle 0 slow (settle 1 fast s'))
  = (JSON.JObj [("title", JSON.JStr "new")], false, None).
Proof.
  intros slow fast s'.
  exact (proj1 (proj2 (superseded_request_ignored "/posts/A" (JSON.JObj []) []
                         "/posts/B" (JSON.JObj []) slow eq_refl)
                  eq_refl fast)).
Defined.

(** *** A new key *)

(** On a render with another key the effect runs once: one more call of
    [fetch], [loading] true, [data] and [error] as they were. *)
Lemma render_new_key (url : string) (options : JSON.json) s :
  alive s = true -> same_deps (deps s) (key url options) = false ->
  let s' := render url options s in
  loading s' = true
  /\ requests s' = requests s ++ [(url, options)]
  /\ data s' = data s
  /\ error s' = error s.
Proof.
  intros A K. unfold render. rewrite A, K. simpl. auto.
Qed.

(** A render with the same key runs no effect. *)
Lemma render_same_key (url : string) (options : JSON.json) s :
  same_deps (deps s) (key url options) = true -> render url options s = s.
Proof. intros K. unfold render. rewrite K. destruct (negb (alive s)); reflexivity. Qed.

(** C5, where the code departs from it: after a request that failed, a
    render with another key issues exactly one more request and sets
    [loading], and the error of the failed request is still there. *)
Theorem new_key_keeps_error :
  let failed :=
    settle 0 (Response false 500 (inr JSON.JNull)) (mount "/posts/A" (JSON.JObj [])) in
  let s' := render "/posts/B" (JSON.JObj []) failed in
  error failed = Some (mkError "HTTP error! Status: 500")
  /\ loading s' = true
  /\ requests s' = requests failed ++ [("/posts/B", JSON.JObj [])]
  /\ error s' = Some (mkError "HTTP error! Status: 500").
Proof. repeat split. Qed.

End FetchFacts.

(** ** The todo store: deleting, clearing, and what every call keeps *)

Section TodoStoreMore.

Implicit Types (l : list Todo) (s : Store) (c : call) (i : string).

Lemma filter_sublist (p : Todo -> bool) l : sublist (List.filter p l) l.
Proof.
  induction l as [|t l IH]; simpl; [constructor|].
  destruct (p t); [apply sublist_skip, IH|apply sublist_cons, IH].
Qed.

Lemma filter_all (p : Todo -> bool) l :
  (forall t, List.In t l -> p t = true) -> List.filter p l = l.
Proof.
  induction l as [|t l IH]; simpl; intros H; [reflexivity|].
  rewrite (H t (or_introl eq_refl)), IH; [reflexivity|].
  intros t' Ht'. apply H. now right.
Qed.

Lemma map_unchanged (f : Todo -> Todo) l :
  (forall t, List.In t l -> f t = t) -> List.map f l = l.
Proof.
  induction l as [|t l IH]; simpl; intros H; [reflexivity|].
  rewrite (H t (or_introl eq_refl)), IH; [reflexivity|].
  intros t' Ht'. apply H. now right.
Qed.

Lemma id_not_in i l (t : Todo) :
  ~ List.In i (List.map id l) -> List.In t l -> String.eqb (id t) i = false.
Proof.
  intros Hi Ht. apply String.eqb_neq. intros E. apply Hi. rewrite <- E.
  now apply List.in_map.
Qed.

(** X1: [deleteTodo(id)] removes the records with that id and no other:
    a record is in the collection afterwards exactly when it was there
    before with another id, and the records that stay keep their order. *)
Theorem deleteTodo_spec : forall s i,
  let l' := todos (dispatch s (DeleteTodo i)) in
  (forall t, List.In t l' <-> List.In t (todos s) /\ id t <> i)
  /\ sublist l' (todos s)
  /\ length l'
     + length (List.filter (fun t => String.eqb (id t) i) (todos s))
     = length (todos s).
Proof.
  intros s i; simpl. split; [|split].
  - intros t. rewrite List.filter_In, negb_true_iff, String.eqb_neq. tauto.
  - apply filter_sublist.
  - apply (filter_split (fun t => String.eqb (id t) i)).
Qed.

(** X2: on a mounted instance, [toggleTodo], [editTodo] and [deleteTodo]
    with an id that no record has leave the collection and the storage
    as they are. *)
Theorem unknown_id_noop : forall l ls (calls : list call) i (newText : string),
  let s := run (mounted l ls) calls in
  ~ List.In i (List.map id (todos s)) ->
  dispatch s (ToggleTodo i) = s
  /\ dispatch s (EditTodo i newText) = s
  /\ dispatch s (DeleteTodo i) = s.
Proof.
  intros l ls calls i newText s Hi.
  assert (Sy : in_sync s) by apply run_in_sync, mounted_in_sync.
  assert (Same : forall l', l' = todos s ->
            {| todos := l'; localStorage := save_todos l' (localStorage s) |} = s).
  { intros l' ->. destruct s as [ts st]; simpl in *. f_equal.
    unfold save_todos. apply insert_id. exact Sy. }
  split; [|split]; unfold dispatch; simpl.
  - apply Same, map_unchanged. intros t Ht.
    rewrite (id_not_in i _ t Hi Ht). reflexivity.
  - unfold editTodo. destruct (JS.truthy (JS.trim newText)); simpl; [|reflexivity].
    apply Same, map_unchanged. intros t Ht.
    rewrite (id_not_in i _ t Hi Ht). reflexivity.
  - apply Same, filter_all. intros t Ht.
    rewrite (id_not_in i _ t Hi Ht). reflexivity.
Qed.

Lemma unknown_id_noop_witness :
  let s := run (mounted [mkTodo "1" "tea" true] ∅) [AddTodo 2 "milk"] in
  dispatch s (ToggleTodo "3") = s
  /\ dispatch s (EditTodo "3" "eggs") = s
  /\ dispatch s (DeleteTodo "3") = s.
Proof.
  intros s.
  apply (unknown_id_noop [mkTodo "1" "tea" true] ∅ [AddTodo 2 "milk"] "3" "eggs").
  simpl. intros [H|[H|[]]]; discriminate H.
Defined.

Lemma filter_none (p : Todo -> bool) l :
  List.filter p (List.filter (fun t => negb (p t)) l) = [].
Proof.
  induction l as [|t l IH]; simpl; [reflexivity|].
  destruct (p t) eqn:E; simpl; rewrite ?E; exact IH.
Qed.

Lemma filter_twice (p : Todo -> bool) l :
  List.filter p (List.filter p l) = List.filter p l.
Proof.
  induction l as [|t l IH]; simpl; [reflexivity|].
  destruct (p t) eqn:E; simpl; rewrite ?E, IH; reflexivity.
Qed.

(** X3: after [clearCompleted] no record is completed, the records that
    were not completed are all there in their order, so the count of
    active records is the same and is the new total, and a second
    [clearCompleted] changes nothing. *)
Theorem clearCompleted_spec : forall s,
  let s' := dispatch s ClearCompleted in
  List.Forall (fun t => completed t = false) (todos s')
  /\ todos s' = List.filter (fun t => negb (completed t)) (todos s)
  /\ sublist (todos s') (todos s)
  /\ stats_completed (stats (todos s')) = 0
  /\ active (stats (todos s')) = active (stats (todos s))
  /\ total (stats (todos s')) = active (stats (todos s))
  /\ todos (dispatch s' ClearCompleted) = todos s'.
Proof.
  intros s; simpl.
  pose proof (filter_twice (fun t => negb (completed t)) (todos s)) as Tw.
  repeat split.
  - apply List.Forall_forall. intros t Ht.
    apply List.filter_In in Ht as [_ Ht]. now apply negb_true_iff.
  - apply filter_sublist.
  - rewrite (filter_none completed). reflexivity.
  - now rewrite Tw.
  - exact Tw.
Qed.

(** X4: [toggleTodo(id)] keeps the length and the order of the
    collection; at every position a record with the id has its
    [completed] negated and its [id] and [text] kept, and any other record
    is unchanged. *)
Theorem toggleTodo_frame : forall s i,
  let l' := todos (dispatch s (ToggleTodo i)) in
  length l' = length (todos s)
  /\ List.map id l' = List.map id (todos s)
  /\ List.map text l' = List.map text (todos s)
  /\ forall (n : nat) (t : Todo),
       todos s !! n = Some t ->
       l' !! n
       = Some (if String.eqb (id t) i
               then {| id := id t; text := text t;
                       completed := negb (completed t) |}
               else t).
Proof.
  intros s i; simpl. split; [apply List.length_map|].
  split; [|split].
  - rewrite List.map_map. apply List.map_ext. intros t.
    destruct (String.eqb (id t) i); reflexivity.
  - rewrite List.map_map. apply List.map_ext. intros t.
    destruct (String.eqb (id t) i); reflexivity.
  - intros n t Hn.
    match goal with |- List.map ?f ?l !! n = _ =>
      change (List.map f l) with (f <$> l) end.
    rewrite list_lookup_fmap, Hn. reflexivity.
Qed.

(** The ids of the collection after a call: those before and a new one
    at the end for [addTodo], a part of those before, in their order,
    for any other call. *)
Lemma ids_after_call s c :
  match c with
  | AddTodo now txt =>
      List.map id (todos (dispatch s c))
      = List.map id (todos s)
        ++ (if JS.truthy (JS.trim txt) then [JS.toString now] else [])
  | _ => sublist (List.map id (todos (dispatch s c))) (List.map id (todos s))
  end.
Proof.
  destruct c as [now txt|i|i newText|i|]; unfold dispatch; simpl.
  - unfold addTodo. destruct (JS.truthy (JS.trim txt)); simpl.
    + apply List.map_app.
    + symmetry. apply List.app_nil_r.
  - rewrite List.map_map.
    erewrite List.map_ext; [reflexivity|]. intros t.
    destruct (String.eqb (id t) i); reflexivity.
  - unfold editTodo. destruct (JS.truthy (JS.trim newText)); simpl; [|reflexivity].
    rewrite List.map_map.
    erewrite List.map_ext; [reflexivity|]. intros t.
    destruct (String.eqb (id t) i); reflexivity.
  - change (List.map id ?x) with (id <$> x). apply fmap_sublist, filter_sublist.
  - change (List.map id ?x) with (id <$> x). apply fmap_sublist, filter_sublist.
Qed.

(** X5: no call other than [addTodo] brings an id into the collection
    or changes the order of the ids: after any sequence of [toggleTodo],
    [editTodo], [deleteTodo] and [clearCompleted] calls the ids are a part
    of the ids before, in the same order, and are pairwise distinct if
    they were. *)
Theorem ids_only_shrink : forall s (calls : list call),
  List.Forall (fun c => match c with AddTodo _ _ => False | _ => True end) calls ->
  sublist (List.map id (todos (run s calls))) (List.map id (todos s))
  /\ (List.NoDup (List.map id (todos s)) ->
      List.NoDup (List.map id (todos (run s calls)))).
Proof.
  intros s calls H.
  assert (Sub : sublist (List.map id (todos (run s calls))) (List.map id (todos s))).
  { revert s; induction H as [|c calls Hc _ IH]; intros s; simpl; [reflexivity|].
    etransitivity; [apply IH|].
    pose proof (ids_after_call s c) as Hs. destruct c; [destruct Hc|..]; exact Hs. }
  split; [exact Sub|].
  rewrite <- !NoDup_ListNoDup. intros Hn. exact (sublist_NoDup _ _ Hn Sub).
Qed.

Lemma ids_only_shrink_witness :
  let s := mounted [mkTodo "1" "tea" true; mkTodo "2" "milk" false] ∅ in
  sublist
    (List.map id (todos (run s [ToggleTodo "2"; ClearCompleted; EditTodo "9" "x"])))
    ["1"; "2"].
Proof.
  intros s.
  apply (ids_only_shrink s [ToggleTodo "2"; ClearCompleted; EditTodo "9" "x"]).
  repeat constructor.
Defined.

Lemma dispatch_texts_nonempty s c :
  texts_nonempty (todos s) -> texts_nonempty (todos (dispatch s c)).
Proof.
  unfold texts_nonempty. rewrite !List.Forall_forall. intros H.
  destruct c as [now txt|i|i newText|i|]; unfold dispatch; simpl.
  - unfold addTodo. destruct (JS.truthy (JS.trim txt)) eqn:E; simpl; [|exact H].
    intros t Ht. apply List.in_app_or in Ht as [Ht|[<-|[]]]; [now apply H|].
    simpl. now apply truthy_nonempty.
  - intros t Ht. apply List.in_map_iff in Ht as (t0 & <- & Ht0).
    destruct (String.eqb (id t0) i); simpl; now apply H.
  - unfold editTodo. destruct (JS.truthy (JS.trim newText)) eqn:E; simpl; [|exact H].
    intros t Ht. apply List.in_map_iff in Ht as (t0 & <- & Ht0).
    destruct (String.eqb (id t0) i); simpl; [now apply truthy_nonempty|now apply H].
  - intros t Ht. apply List.filter_In in Ht as [Ht _]. now apply H.
  - intros t Ht. apply List.filter_In in Ht as [Ht _]. now apply H.
Qed.

(** X6: no call stores an empty text: from the empty collection, after
    any sequence of calls, the text of every record is not empty. *)
Theorem texts_never_empty : forall ls (calls : list call),
  List.Forall (fun t => text t <> EmptyString)
    (todos (run (mounted [] ls) calls)).
Proof.
  intros ls calls.
  assert (G : forall s, texts_nonempty (todos s) ->
                        texts_nonempty (todos (run s calls))).
  { induction calls as [|c calls IH]; intros s H; simpl; [exact H|].
    apply IH, dispatch_texts_nonempty, H. }
  apply G. constructor.
Qed.

End TodoStoreMore.

(** ** The todo page *)

Section TodoPageFacts.

Import TodoPage.

Implicit Types (l : list Todo) (s : Store) (p : page).

(** X7: the three views of the page: [all] shows the collection; [active]
    and [completed] show parts of it in its order, as many records as the
    statistics count, and every record is in exactly one of the two. *)
Theorem filteredTodos_views : forall l,
  filteredTodos All l = l
  /\ sublist (filteredTodos Active l) l
  /\ sublist (filteredTodos Completed l) l
  /\ length (filteredTodos Active l) = active (stats l)
  /\ length (filteredTodos Completed l) = stats_completed (stats l)
  /\ filteredTodos Active l ++ filteredTodos Completed l ≡ₚ l
  /\ filteredTodos Completed (filteredTodos Active l) = [].
Proof.
  intros l. split; [|split; [|split; [|split; [|split; [|split]]]]].
  - apply filter_all. reflexivity.
  - apply filter_sublist.
  - apply filter_sublist.
  - reflexivity.
  - reflexivity.
  - unfold filteredTodos. induction l as [|t l IH]; simpl; [reflexivity|].
    destruct (completed t); simpl.
    + rewrite <- Permutation_middle. now constructor.
    + now constructor.
  - apply (filter_none completed).
Qed.

Lemma filter_length_all (q : Todo -> bool) l :
  length (List.filter q l) = length l -> List.filter q l = l.
Proof.
  induction l as [|t l IH]; simpl; [reflexivity|].
  destruct (q t); simpl; intros H.
  - f_equal. apply IH. lia.
  - pose proof (List.filter_length_le q l). lia.
Qed.

(** X8: the button [Clear completed] is disabled exactly when
    [clearCompleted] would give the collection it was called on. *)
Theorem clear_disabled_iff_noop : forall l,
  clear_disabled l = true <-> clearCompleted l = Some l.
Proof.
  intros l. unfold clear_disabled, clearCompleted, stats; simpl.
  rewrite Nat.eqb_eq.
  pose proof (filter_split (fun todo => completed todo) l) as Hs.
  cbv beta in Hs. split.
  - intros H. f_equal. apply filter_length_all. lia.
  - intros H. injection H as H. rewrite H in Hs. lia.
Qed.

(** X9: [handleSubmit] with an input that trims to the empty string
    changes nothing, the input included; with any other input it empties
    the input and adds one record, which is last in the [all] and the
    [active] view and is not in the [completed] view. *)
Theorem handleSubmit_spec : forall (now : Z) p,
  let p' := handleSubmit now p in
  let added :=
    {| id := JS.toString now; text := JS.trim (newTodo p); completed := false |} in
  (JS.trim (newTodo p) = EmptyString -> p' = p)
  /\ (JS.trim (newTodo p) <> EmptyString ->
      newTodo p' = EmptyString
      /\ current_filter p' = current_filter p
      /\ filteredTodos All (todos (store p'))
         = filteredTodos All (todos (store p)) ++ [added]
      /\ filteredTodos Active (todos (store p'))
         = filteredTodos Active (todos (store p)) ++ [added]
      /\ filteredTodos Completed (todos (store p'))
         = filteredTodos Completed (todos (store p))).
Proof.
  intros now p; simpl; unfold handleSubmit. split; intros H.
  - apply truthy_empty in H. rewrite H. reflexivity.
  - apply truthy_nonempty in H. rewrite H. simpl.
    unfold dispatch; simpl; unfold addTodo. rewrite H. simpl.
    unfold filteredTodos. rewrite !List.filter_app. simpl.
    rewrite List.app_nil_r. auto.
Qed.

(** X10: whatever the user does to edit an item (double click, typing, a
    key, leaving the input, the edit button), the collection keeps its
    length, its order, its ids and its [completed] flags; only records
    with the id of the item can change, and only their text, to the
    trimmed text of the input, which is then not empty. *)
Theorem editing_frame : forall (todo : Todo) (e : edit_event) (it : item) s,
  let s' := snd (on_edit_event todo e (it, s)) in
  List.map id (todos s') = List.map id (todos s)
  /\ List.map completed (todos s') = List.map completed (todos s)
  /\ (forall (n : nat) (t : Todo),
        todos s !! n = Some t ->
        todos s' !! n = Some t
        \/ (id t = id todo
            /\ JS.trim (editText it) <> EmptyString
            /\ todos s' !! n
               = Some {| id := id t; text := JS.trim (editText it);
                         completed := completed t |})).
Proof.
  intros todo e it s.
  assert (Same : List.map id (todos s) = List.map id (todos s)
                 /\ List.map completed (todos s) = List.map completed (todos s)
                 /\ (forall (n : nat) (t : Todo),
                       todos s !! n = Some t ->
                       todos s !! n = Some t
                       \/ (id t = id todo
                           /\ JS.trim (editText it) <> EmptyString
                           /\ todos s !! n
                              = Some {| id := id t; text := JS.trim (editText it);
                                        completed := completed t |})))
    by (repeat split; auto).
  assert (Submit :
    let s' := snd (handleEditSubmit todo (it, s)) in
    List.map id (todos s') = List.map id (todos s)
    /\ List.map completed (todos s') = List.map completed (todos s)
    /\ (forall (n : nat) (t : Todo),
          todos s !! n = Some t ->
          todos s' !! n = Some t
          \/ (id t = id todo
              /\ JS.trim (editText it) <> EmptyString
              /\ todos s' !! n
                 = Some {| id := id t; text := JS.trim (editText it);
                           completed := completed t |}))).
  { simpl. destruct (JS.truthy (JS.trim (editText it))) eqn:E; [|exact Same].
    unfold dispatch; simpl; unfold editTodo. rewrite E. simpl.
    split; [|split].
    - rewrite List.map_map. apply List.map_ext. intros t.
      destruct (String.eqb (id t) (id todo)); reflexivity.
    - rewrite List.map_map. apply List.map_ext. intros t.
      destruct (String.eqb (id t) (id todo)); reflexivity.
    - intros n t Hn.
      match goal with |- List.map ?f ?l !! n = _ \/ _ =>
        change (List.map f l) with (f <$> l) end.
      rewrite list_lookup_fmap, Hn. simpl.
      destruct (String.eqb (id t) (id todo)) eqn:Ei; [right|left; reflexivity].
      apply String.eqb_eq in Ei. apply truthy_nonempty in E. auto. }
  destruct e as [| value | key | |]; simpl; try exact Same; try exact Submit.
  unfold handleKeyDown.
  destruct (String.eqb key "Enter"); [exact Submit|].
  destruct (String.eqb key "Escape"); exact Same.
Qed.

End TodoPageFacts.

(** ** JSON: every value reads back from its text *)

Section JsonValues.

Import JS JSON.

Local Arguments strip : simpl never.
Local Arguments parse_number : simpl never.
Local Arguments parse_string : simpl never.






















End JsonValues.

(** ** [useLocalStorage] and the first render of [useTodos] *)

Section LocalStorageFacts.

Import LocalStorageHook.




(** X12: the first render of [useLocalStorage] never throws: it starts
    from the stored text read as JSON when there is one and it is JSON,
    and from the default value in every other case (no [window], no text
    under the key, the empty text, a text that is not JSON). *)
Theorem useLocalStorage_initial_spec : forall (w : option (gmap string string))
    (key : string) (initialValue : JSON.json),
  useLocalStorage_initial w key initialValue
  = Normal (default initialValue
              (storage ← w; item ← storage !! key; JSON.parse item)).
Proof.
  intros [storage|] key initialValue; [|reflexivity].
  unfold useLocalStorage_initial, try_catch, JSON_parse. simpl.
  destruct (storage !! key) as [item|]; [|reflexivity]. simpl.
  destruct item as [|c item]; [reflexivity|]. simpl.
  destruct (JSON.parse (String c item)); reflexivity.
Qed.

Lemma number_is_zero_examples :
  List.map number_is_zero ["0"; "-0"; "0.000"; "0e99"; "1e-400"; "2e-324"]
  = [true; true; true; true; true; true]
  /\ List.map number_is_zero ["1"; "-1.5e3"; "0.001"; "10E+2"; "3e-324"; "5e-324"]
     = [false; false; false; false; false; false].
Proof. split; vm_compute; reflexivity. Qed.

Lemma filter_completed_throws (keep : option JSON.json -> bool)
    (items : list JSON.json) :
  List.In JSON.JNull items -> filter_completed keep items = Throw TypeError.
Proof.
  induction items as [|x items IH]; intros H; [destruct H|].
  destruct H as [->|H]; [reflexivity|].
  simpl. destruct x; simpl; try reflexivity; rewrite (IH H); reflexivity.
Qed.

Lemma filter_completed_normal (keep : option JSON.json -> bool)
    (items : list JSON.json) :
  ~ List.In JSON.JNull items ->
  exists l, filter_completed keep items = Normal l
            /\ length l
               = length (List.filter
                           (fun x => match read_completed x with
                                     | Normal c => keep c
                                     | Throw _ => false
                                     end) items).
Proof.
  induction items as [|x items IH]; intros H; [exists []; split; reflexivity|].
  destruct IH as (l & Hl & Hn); [intros Hin; apply H; now right|].
  assert (Hx : exists c, read_completed x = Normal c).
  { destruct x; simpl; eauto. exfalso. apply H. now left. }
  destruct Hx as (c & Hc). simpl. rewrite Hc, Hl.
  exists (if keep c then x :: l else l). split; [reflexivity|].
  destruct (keep c); simpl; rewrite Hn; reflexivity.
Qed.

Lemma stats_value_spec (v : JSON.json) :
  match v with
  | JSON.JArr items =>
      if List.existsb (fun x => match x with JSON.JNull => true | _ => false end)
           items
      then stats_value v = Throw TypeError
      else exists st, stats_value v = Normal st
                      /\ total st = length items
                      /\ stats_completed st + active st = total st
  | _ => stats_value v = Throw TypeError
  end.
Proof.
  destruct v as [| | | |items|]; try reflexivity.
  destruct (List.existsb _ items) eqn:E.
  - apply List.existsb_exists in E. destruct E as (x & Hin & Hx).
    destruct x; try discriminate.
    unfold stats_value. rewrite (filter_completed_throws _ _ Hin). reflexivity.
  - assert (Hn : ~ List.In JSON.JNull items).
    { intros Hin. assert (T : List.existsb
        (fun x => match x with JSON.JNull => true | _ => false end) items = true)
        by (apply List.existsb_exists; exists JSON.JNull; auto).
      congruence. }
    destruct (filter_completed_normal to_boolean items Hn) as (l1 & H1 & N1).
    destruct (filter_completed_normal (fun c => negb (to_boolean c)) items Hn)
      as (l2 & H2 & N2).
    unfold stats_value. rewrite H1, H2. eexists. split; [reflexivity|].
    simpl. split; [reflexivity|]. rewrite N1, N2.
    clear - Hn. induction items as [|x items IH]; simpl; [reflexivity|].
    assert (IH' := IH ltac:(intros Hin; apply Hn; now right)).
    destruct x; simpl; try lia.
    + exfalso. apply Hn. now left.
    + destruct (to_boolean (member "completed" members)); simpl; lia.
Qed.

Lemma existsb_null (items : list JSON.json) :
  List.existsb (fun x => match x with JSON.JNull => true | _ => false end) items
  = true <-> List.In JSON.JNull items.
Proof.
  rewrite List.existsb_exists. split.
  - intros (x & Hin & Hx). destruct x; try discriminate. exact Hin.
  - intros Hin. exists JSON.JNull. auto.
Qed.

(** On the text of a collection of records the statistics are those of
    the collection. *)
Lemma stats_value_todos (l : list Todo) :
  stats_value (json_of_todos l) = Normal (stats l).
Proof.
  unfold stats_value, json_of_todos.
  assert (H : forall keep : option JSON.json -> bool,
            filter_completed keep (List.map json_of_Todo l)
            = Normal (List.map json_of_Todo
                        (List.filter
                           (fun todo => keep (Some (JSON.JBool (completed todo))))
                           l))).
  { intros keep. induction l as [|t l IH]; [reflexivity|].
    simpl. rewrite IH. simpl.
    destruct (keep (Some (JSON.JBool (completed t)))); reflexivity. }
  rewrite !H, !List.length_map. reflexivity.
Qed.

Lemma useTodos_render_examples :
  List.map (fun saved => useTodos_render (<["todos" := saved]> ∅))
    ["null"; "{}"; "5"; "[null]"; "undefined"; "[5]"]
  = [Throw TypeError; Throw TypeError; Throw TypeError; Throw TypeError;
     Throw (AnError (mkError "SyntaxError"));
     Normal (JSON.JArr [JSON.JNum "5"], mkStats 1 0 1)].
Proof.
  unfold useTodos_render, useTodos_initial. simpl List.map.
  rewrite !lookup_insert_eq. reflexivity.
Qed.

(** X13: the first call of [useTodos] throws exactly when the text under
    the key [todos] is not empty and is not the JSON text of an array
    without [null] among its elements: a SyntaxError from [JSON.parse] when
    the text is not JSON, a TypeError from the [stats] object when it is
    the text of another value.  Without a text, or with the empty text, the
    call returns the empty collection; when it returns, the state is an
    array, [total] is its length and [completed] and [active] add up to
    it; and on the storage a save of the hook left, it returns the saved
    collection with its statistics. *)
Theorem useTodos_first_render_spec : forall (ls : gmap string string),
  ((exists e, useTodos_render ls = Throw e)
   <-> exists saved, ls !! "todos" = Some saved /\ saved <> EmptyString
         /\ forall items, JSON.parse saved = Some (JSON.JArr items) ->
                          List.In JSON.JNull items)
  /\ (forall saved, ls !! "todos" = Some saved -> saved <> EmptyString ->
      (JSON.parse saved = None ->
       useTodos_render ls = Throw (AnError (mkError "SyntaxError")))
      /\ (forall v, JSON.parse saved = Some v ->
                    (forall items, v = JSON.JArr items -> List.In JSON.JNull items) ->
                    useTodos_render ls = Throw TypeError))
  /\ (ls !! "todos" = None \/ ls !! "todos" = Some EmptyString ->
      useTodos_render ls = Normal (JSON.JArr [], mkStats 0 0 0))
  /\ (forall v st, useTodos_render ls = Normal (v, st) ->
      useTodos_initial ls = Normal v
      /\ exists items, v = JSON.JArr items /\ ~ List.In JSON.JNull items
                       /\ total st = length items
                       /\ stats_completed st + active st = total st)
  /\ (forall l, useTodos_render (save_todos l ls)
                = Normal (json_of_todos l, stats l)).
Proof.
  intros ls.
  assert (Bad : forall v,
            (forall items, v = JSON.JArr items -> List.In JSON.JNull items) ->
            stats_value v = Throw TypeError).
  { intros v Hv. pose proof (stats_value_spec v) as S.
    destruct v as [| | | |items|]; try exact S.
    rewrite (proj2 (existsb_null items) (Hv items eq_refl)) in S. exact S. }
  assert (Good : forall v st, stats_value v = Normal st ->
            exists items, v = JSON.JArr items /\ ~ List.In JSON.JNull items
                          /\ total st = length items
                          /\ stats_completed st + active st = total st).
  { intros v st Hst. pose proof (stats_value_spec v) as S.
    destruct v as [| | | |items|]; try congruence.
    destruct (List.existsb _ items) eqn:E; [congruence|].
    destruct S as (st' & Hst' & Ht & Hs).
    assert (st' = st) by congruence. subst st'.
    exists items. split; [reflexivity|]. split; [|auto].
    intros Hin. apply existsb_null in Hin. congruence. }
  unfold useTodos_render, useTodos_initial, JSON_parse.
  split; [|split; [|split; [|split]]].
  - destruct (ls !! "todos") as [[|c saved]|]; simpl.
    + split; [intros [e H]; discriminate|].
      intros (saved & H & Hne & _). injection H as <-. congruence.
    + destruct (JSON.parse (String c saved)) as [v|] eqn:E.
      * destruct (stats_value v) as [st|e] eqn:Es.
        -- split; [intros [e H]; discriminate|].
           intros (saved' & H & _ & Hp). injection H as <-.
           rewrite (Bad v) in Es; [discriminate|].
           intros items ->. apply Hp, E.
        -- split; [|eauto]. intros _. exists (String c saved).
           split; [reflexivity|]. split; [discriminate|].
           intros items Hp. rewrite E in Hp. injection Hp as ->.
           pose proof (stats_value_spec (JSON.JArr items)) as S.
           cbv beta iota in S.
           destruct (List.existsb _ items) eqn:Ex;
             [now apply existsb_null|].
           destruct S as (st & Hst & _). congruence.
      * split; [|eauto]. intros _. exists (String c saved).
        split; [reflexivity|]. split; [discriminate|]. congruence.
    + split; [intros [e H]; discriminate|].
      intros (saved & H & _). discriminate.
  - intros saved -> Hne. destruct saved as [|c saved]; [congruence|]. simpl.
    split.
    + intros ->. reflexivity.
    + intros v -> Hv. rewrite (Bad v Hv). reflexivity.
  - intros [-> | ->]; reflexivity.
  - intros v st H.
    destruct (ls !! "todos") as [[|c saved]|]; simpl in *.
    + injection H as <- <-. split; [reflexivity|].
      exists []. simpl. auto.
    + destruct (JSON.parse (String c saved)) as [w|]; [|discriminate].
      destruct (stats_value w) as [st'|] eqn:Es; [|discriminate].
      injection H as <- <-. split; [reflexivity|]. apply Good, Es.
    + injection H as <- <-. split; [reflexivity|].
      exists []. simpl. auto.
  - intros l. unfold save_todos. rewrite lookup_insert_eq.
    rewrite stringify_todos_truthy, parse_stringify_todos, stats_value_todos.
    reflexivity.
Qed.

End LocalStorageFacts.

(** ** [useTimer] *)

Section TimerFacts.

Import Timer.

Implicit Types (s : state) (e : event) (i : nat).

Lemma timer_ok_mount (initialSeconds : Z) : timer_ok (mount initialSeconds).
Proof. unfold timer_ok; simpl. auto. Qed.

Lemma timer_ok_setIsActive (b : bool) s : timer_ok s -> timer_ok (setIsActive b s).
Proof.
  intros H. unfold setIsActive.
  destruct (alive s) eqn:A; simpl; [|exact H].
  destruct (isActive s) eqn:Ia, b; simpl; try exact H;
    unfold timer_ok in H; rewrite A, Ia in H.
  - destruct H as (i & Hi & Ht).
    unfold timer_ok, effect, cleanup; simpl. rewrite Hi; simpl.
    split; [reflexivity|]. rewrite Ht. apply difference_diag_L.
  - destruct H as (Hi & Ht).
    unfold timer_ok, effect, cleanup; simpl. rewrite Hi; simpl.
    eexists. split; [reflexivity|]. rewrite Ht. apply (right_id_L ∅ (∪)).
Qed.

Lemma alive_setIsActive (b : bool) s : alive (setIsActive b s) = alive s.
Proof.
  unfold setIsActive. destruct (alive s) eqn:A; simpl; [|exact A].
  destruct (Bool.eqb (isActive s) b); [exact A|].
  unfold effect, cleanup; simpl. destruct b, (interval s); reflexivity.
Qed.

Lemma seconds_setIsActive (b : bool) s : seconds (setIsActive b s) = seconds s.
Proof.
  unfold setIsActive. destruct (negb (alive s)); [reflexivity|].
  destruct (Bool.eqb (isActive s) b); [reflexivity|].
  unfold effect, cleanup; simpl. destruct b, (interval s); reflexivity.
Qed.

Lemma isActive_setIsActive (b : bool) s :
  alive s = true -> isActive (setIsActive b s) = b.
Proof.
  intros A. unfold setIsActive. rewrite A; simpl.
  destruct (Bool.eqb (isActive s) b) eqn:E; [now apply Bool.eqb_prop|].
  unfold effect, cleanup; simpl. destruct b, (interval s); reflexivity.
Qed.

Lemma setIsActive_twice (b : bool) s :
  setIsActive b (setIsActive b s) = setIsActive b s.
Proof.
  unfold setIsActive at 1. rewrite alive_setIsActive.
  destruct (alive s) eqn:A; simpl; [|reflexivity].
  rewrite (isActive_setIsActive b s A), Bool.eqb_reflx. reflexivity.
Qed.

Lemma setIsActive_setSeconds (b : bool) (f : Z -> Z) s :
  setIsActive b (setSeconds f s) = setSeconds f (setIsActive b s).
Proof.
  unfold setSeconds. rewrite alive_setIsActive.
  unfold setIsActive. destruct (alive s) eqn:A; simpl; rewrite ?A; simpl;
    [|reflexivity].
  destruct (Bool.eqb (isActive s) b); [reflexivity|].
  unfold effect, cleanup; simpl. destruct b, (interval s); reflexivity.
Qed.

Lemma timer_ok_setSeconds (f : Z -> Z) s : timer_ok s -> timer_ok (setSeconds f s).
Proof.
  intros H. unfold setSeconds. destruct (alive s) eqn:A; simpl; [|exact H].
  unfold timer_ok in *; simpl. rewrite A in H. exact H.
Qed.

Lemma timer_ok_step (initialSeconds : Z) s e :
  timer_ok s -> timer_ok (step initialSeconds s e).
Proof.
  intros H. destruct e as [| | |i|]; simpl.
  - now apply timer_ok_setIsActive.
  - now apply timer_ok_setIsActive.
  - now apply timer_ok_setSeconds, timer_ok_setIsActive.
  - unfold tick. destruct (decide _); [now apply timer_ok_setSeconds|exact H].
  - unfold unmount. destruct (alive s) eqn:A; simpl; [|exact H].
    unfold timer_ok in H. rewrite A in H.
    unfold timer_ok, cleanup; simpl. destruct (isActive s).
    + destruct H as (i & -> & ->). simpl. apply difference_diag_L.
    + destruct H as (-> & ->). reflexivity.
Qed.

Lemma timer_ok_steps (initialSeconds : Z) (es : list event) : forall s,
  timer_ok s -> timer_ok (steps initialSeconds s es).
Proof.
  induction es as [|e es IH]; intros s H; simpl; [exact H|].
  apply IH, timer_ok_step, H.
Qed.

(** X14: whatever the sequence of [start], [pause], [reset], firings of
    intervals and the removal of the instance, at most one interval of
    the instance is set: exactly one while the instance is in the tree
    and the timer is active, and none when the timer is paused or the
    instance is removed. *)
Theorem timer_single_interval : forall (initialSeconds : Z) (es : list event),
  let s := steps initialSeconds (mount initialSeconds) es in
  size (timers s) <= 1
  /\ (alive s = true /\ isActive s = true <-> exists i, timers s = {[ i ]})
  /\ (alive s = false \/ isActive s = false <-> timers s = ∅).
Proof.
  intros initialSeconds es s.
  assert (H : timer_ok s) by apply timer_ok_steps, timer_ok_mount.
  unfold timer_ok in H.
  destruct (alive s), (isActive s).
  - destruct H as (i & _ & Ht). rewrite Ht, size_singleton.
    split; [lia|]. split; [split; eauto|].
    split; [intros [?|?]; discriminate|]. intros E. set_solver.
  - destruct H as (_ & Ht). rewrite Ht, size_empty.
    split; [lia|]. split; [|tauto].
    split; [intros [_ ?]; discriminate|]. intros [i E]. set_solver.
  - rewrite H, size_empty. split; [lia|]. split; [|tauto].
    split; [intros [? _]; discriminate|]. intros [i E]. set_solver.
  - rewrite H, size_empty. split; [lia|]. split; [|tauto].
    split; [intros [? _]; discriminate|]. intros [i E]. set_solver.
Qed.

(** Within -2^53 and 2^53 every integer is a number and the sum of two
    of them that stays there is exact, so that the count of the model is
    the count of the code. *)
Lemma seconds_ticks i (n : nat) : forall s,
  alive s = true -> i ∈ timers s ->
  (- 2 ^ 53 <= seconds s)%Z -> (seconds s + Z.of_nat n <= 2 ^ 53)%Z ->
  let s' := Nat.iter n (tick i) s in
  seconds s' = (seconds s + Z.of_nat n)%Z
  /\ isActive s' = isActive s /\ timers s' = timers s /\ alive s' = true.
Proof.
  induction n as [|n IH]; intros s A Hi Hlo Hhi; simpl.
  - split; [lia|auto].
  - destruct (IH s A Hi Hlo ltac:(lia)) as (Hs & Ha & Ht & Al).
    set (s1 := Nat.iter n (tick i) s) in *.
    unfold tick. rewrite Ht. destruct (decide (i ∈ timers s)); [|contradiction].
    unfold setSeconds. rewrite Al. simpl. split; [lia|auto].
Qed.

(** X15: in the tree, after [start] one interval is set, and [n]
    firings of it add [n] to [seconds], from the value [seconds] had,
    whether the timer was active before or not, as long as the count stays
    between -2^53 and 2^53, where adding one to a number is exact; while
    the timer is paused or the instance removed, a firing of any interval
    changes nothing. *)
Theorem timer_counts : forall (initialSeconds : Z) (es : list event),
  let s := steps initialSeconds (mount initialSeconds) es in
  (alive s = true ->
   exists i, timers (start s) = {[ i ]}
             /\ forall n : nat,
                  (- 2 ^ 53 <= seconds s)%Z ->
                  (seconds s + Z.of_nat n <= 2 ^ 53)%Z ->
                  seconds (Nat.iter n (tick i) (start s))
                  = (seconds s + Z.of_nat n)%Z)
  /\ (alive s = false \/ isActive s = false -> forall i, tick i s = s)
  /\ (forall i, pause (tick i (pause s)) = pause s).
Proof.
  intros initialSeconds es s.
  assert (H : timer_ok s) by apply timer_ok_steps, timer_ok_mount.
  assert (Stopped : forall s0, timer_ok s0 ->
            alive s0 = false \/ isActive s0 = false -> forall i, tick i s0 = s0).
  { intros s0 H0 Hs i. unfold tick.
    assert (Ht : timers s0 = ∅).
    { unfold timer_ok in H0. destruct (alive s0), (isActive s0), Hs; try discriminate;
        try exact H0; apply H0. }
    rewrite Ht. destruct (decide _) as [Hin|]; [set_solver|reflexivity]. }
  split; [|split].
  - intros A.
    assert (H1 : timer_ok (start s)) by now apply timer_ok_setIsActive.
    assert (A1 : alive (start s) = true)
      by (unfold start; now rewrite alive_setIsActive).
    assert (Ia1 : isActive (start s) = true) by now apply isActive_setIsActive.
    assert (S1 : seconds (start s) = seconds s) by apply seconds_setIsActive.
    unfold timer_ok in H1. rewrite A1, Ia1 in H1. destruct H1 as (i & _ & Ht).
    exists i. split; [exact Ht|]. intros n Hlo Hhi.
    rewrite <- S1.
    apply seconds_ticks; rewrite ?S1; try assumption. rewrite Ht. set_solver.
  - apply Stopped, H.
  - intros i.
    assert (Hp : timer_ok (pause s)) by now apply timer_ok_setIsActive.
    assert (Ip : alive (pause s) = false \/ isActive (pause s) = false).
    { destruct (alive s) eqn:A.
      - right. now apply isActive_setIsActive.
      - left. unfold pause. now rewrite alive_setIsActive. }
    rewrite (Stopped _ Hp Ip). apply setIsActive_twice.
Qed.

Lemma timer_counts_witness :
  let s := steps 0 (mount 0) [Start; Tick 1; Tick 1; Pause; Tick 1] in
  seconds s = 2%Z
  /\ exists i, timers (start s) = {[ i ]}
               /\ seconds (Nat.iter 3 (tick i) (start s)) = 5%Z.
Proof.
  intros s. split; [reflexivity|].
  destruct (proj1 (timer_counts 0 [Start; Tick 1; Tick 1; Pause; Tick 1])
              eq_refl) as (i & Ht & Hn).
  exists i. split; [exact Ht|].
  exact (Hn 3 ltac:(vm_compute; discriminate) ltac:(vm_compute; discriminate)).
Defined.

Lemma seconds_lower_step (initialSeconds : Z) s e :
  (initialSeconds <= seconds s)%Z ->
  (initialSeconds <= seconds (step initialSeconds s e))%Z.
Proof.
  intros H. destruct e as [| | |i|]; simpl.
  - unfold start. now rewrite seconds_setIsActive.
  - unfold pause. now rewrite seconds_setIsActive.
  - unfold reset, setSeconds. destruct (negb (alive _)); simpl;
      [now rewrite seconds_setIsActive|lia].
  - unfold tick. destruct (decide _); [|exact H].
    unfold setSeconds. destruct (negb (alive s)); simpl; lia.
  - unfold unmount. destruct (negb (alive s)); [exact H|].
    unfold cleanup; simpl. destruct (interval s); exact H.
Qed.

Lemma seconds_lower_steps (initialSeconds : Z) (es : list event) : forall s,
  (initialSeconds <= seconds s)%Z ->
  (initialSeconds <= seconds (steps initialSeconds s es))%Z.
Proof.
  induction es as [|e es IH]; intros s H; simpl; [exact H|].
  apply IH, seconds_lower_step, H.
Qed.

(** X16: in the tree, [reset] puts [seconds] back to the initial value,
    stops the timer and leaves no interval set, and a second [reset]
    changes nothing; and [seconds] is never below the initial value. *)
Theorem timer_reset : forall (initialSeconds : Z) (es : list event),
  let s := steps initialSeconds (mount initialSeconds) es in
  (initialSeconds <= seconds s)%Z
  /\ (alive s = true ->
      seconds (reset initialSeconds s) = initialSeconds
      /\ isActive (reset initialSeconds s) = false
      /\ timers (reset initialSeconds s) = ∅)
  /\ reset initialSeconds (reset initialSeconds s) = reset initialSeconds s.
Proof.
  intros initialSeconds es s.
  assert (H : timer_ok s) by apply timer_ok_steps, timer_ok_mount.
  split; [|split].
  - apply seconds_lower_steps. simpl. lia.
  - intros A.
    assert (Ap : alive (setIsActive false s) = true)
      by now rewrite alive_setIsActive.
    assert (Hr : timer_ok (reset initialSeconds s))
      by now apply timer_ok_setSeconds, timer_ok_setIsActive.
    assert (E : alive (reset initialSeconds s) = true
                /\ isActive (reset initialSeconds s) = false
                /\ seconds (reset initialSeconds s) = initialSeconds).
    { unfold reset, setSeconds. rewrite Ap. simpl.
      split; [reflexivity|]. split; [|reflexivity]. now apply isActive_setIsActive. }
    destruct E as (Ar & Ir & Sr). unfold timer_ok in Hr. rewrite Ar, Ir in Hr.
    split; [exact Sr|]. split; [exact Ir|apply Hr].
  - unfold reset.
    rewrite setIsActive_setSeconds, setIsActive_twice.
    unfold setSeconds. destruct (alive (setIsActive false s)) eqn:Ap; simpl;
      rewrite ?Ap; reflexivity.
Qed.

End TimerFacts.

(** ** [useWindowSize] *)

Section WindowSizeFacts.

Import WindowSize.

Implicit Types (s : state).

(** The instance follows the window with one listener. *)
Lemma resize_tracking (w h : Z) s :
  listeners s = 1 ->
  let s' := resize w h s in
  windowSize s' = (Some w, Some h) /\ innerWidth s' = w /\ innerHeight s' = h
  /\ listeners s' = 1 /\ updates s' = S (updates s).
Proof. intros L. unfold resize. rewrite L. simpl. auto. Qed.

Lemma last_default {A : Type} (x : A) (l : list A) (d d' : A) :
  List.last (x :: l) d = List.last (x :: l) d'.
Proof.
  revert x; induction l as [|y l IH]; intros x; [reflexivity|].
  change (List.last (y :: l) d = List.last (y :: l) d'). apply IH.
Qed.

Lemma resizes_tracking (sizes : list (Z * Z)) : forall s,
  listeners s = 1 ->
  windowSize s = (Some (innerWidth s), Some (innerHeight s)) ->
  let s' := resizes s sizes in
  windowSize s' = (Some (innerWidth s'), Some (innerHeight s'))
  /\ (innerWidth s', innerHeight s')
     = List.last sizes (innerWidth s, innerHeight s)
  /\ listeners s' = 1
  /\ updates s' = updates s + length sizes.
Proof.
  induction sizes as [|[w h] sizes IH]; intros s L W; simpl.
  - repeat split; auto.
  - destruct (resize_tracking w h s L) as (W1 & Iw & Ih & L1 & U1).
    destruct (IH (resize w h s) L1) as (W2 & D2 & L2 & U2).
    { rewrite W1, Iw, Ih. reflexivity. }
    split; [exact W2|]. split; [|split; [exact L2|]].
    + rewrite D2, Iw, Ih. destruct sizes as [|p sizes]; [reflexivity|].
      change (List.last ((w, h) :: p :: sizes) ?d) with (List.last (p :: sizes) d).
      apply last_default.
    + rewrite U2, U1. lia.
Qed.

Lemma resizes_unwatched (sizes : list (Z * Z)) : forall s,
  listeners s = 0 ->
  windowSize (resizes s sizes) = windowSize s
  /\ updates (resizes s sizes) = updates s
  /\ listeners (resizes s sizes) = 0.
Proof.
  induction sizes as [|[w h] sizes IH]; intros s L; simpl; [auto|].
  destruct (IH (resize w h s)) as (W & U & L').
  { unfold resize. rewrite L. reflexivity. }
  rewrite W, U, L'. unfold resize. rewrite L. simpl. auto.
Qed.

(** X17: once its effect has run, [useWindowSize] gives the size of the
    window, not [undefined], and after any resizes the size the window
    has now; the window has one listener of the instance, called once per
    resize.  After the instance is removed the window has no listener of
    it, and further resizes change nothing. *)
Theorem windowSize_tracks : forall (w0 h0 : Z) (sizes more : list (Z * Z)),
  let s := resizes (mount w0 h0) sizes in
  windowSize s = (Some (innerWidth s), Some (innerHeight s))
  /\ (innerWidth s, innerHeight s) = List.last sizes (w0, h0)
  /\ listeners s = 1
  /\ updates s = 1 + length sizes
  /\ listeners (unmount s) = 0
  /\ windowSize (resizes (unmount s) more) = windowSize s
  /\ updates (resizes (unmount s) more) = updates s.
Proof.
  intros w0 h0 sizes more s.
  destruct (resizes_tracking sizes (mount w0 h0) eq_refl eq_refl)
    as (W & D & L & U).
  fold s in W, D, L, U.
  split; [exact W|]. split; [exact D|]. split; [exact L|]. split; [exact U|].
  assert (L0 : listeners (unmount s) = 0) by (unfold unmount; simpl; now rewrite L).
  split; [exact L0|].
  destruct (resizes_unwatched more (unmount s) L0) as (W' & U' & _).
  split; [exact W'|exact U'].
Qed.

End WindowSizeFacts.

(** ** [ThemeProvider] *)

Section ThemeFacts.

Import Theme.

Implicit Types (s : state) (h : host).

Lemma classList_add_theme (dark : bool) (cl : gset string) :
  classList_add (if dark then "dark" else "light") cl
  = Normal ({[ if dark then "dark" else "light" ]} ∪ cl).
Proof.
  unfold classList_add.
  assert (T : JS.truthy (if dark then "dark" else "light") = true)
    by (destruct dark; reflexivity).
  assert (W : has_ascii_ws (if dark then "dark" else "light") = false)
    by (destruct dark; reflexivity).
  rewrite T, W. reflexivity.
Qed.

Lemma toggle_result s :
  let newTheme := if String.eqb (theme s) "light" then "dark" else "light" in
  toggleTheme s
  = Normal {| theme := newTheme;
              page := {| storage := <["theme" := newTheme]> (storage (page s));
                         prefers_dark := prefers_dark (page s);
                         classes := {[ newTheme ]}
                                    ∪ classes (page s) ∖ {[ "light"; "dark" ]} |} |}.
Proof.
  unfold toggleTheme, effect. cbn [theme page storage prefers_dark classes].
  rewrite classList_add_theme. reflexivity.
Qed.

(** X18: [toggleTheme] never throws; it gives [dark] from [light] and
    [light] from any other theme, so the theme changes and is [light] or
    [dark] afterwards; it stores the new theme, and a provider created
    later on this storage starts with it, whatever the system
    preference. *)
Theorem toggleTheme_spec : forall s,
  exists s', toggleTheme s = Normal s'
    /\ (theme s' = "light" \/ theme s' = "dark")
    /\ theme s' <> theme s
    /\ storage (page s') !! "theme" = Some (theme s')
    /\ forall (dark : bool) (cl : gset string),
         initial_theme (Some {| storage := storage (page s');
                                prefers_dark := dark; classes := cl |})
         = theme s'.
Proof.
  intros s. rewrite toggle_result. eexists. split; [reflexivity|].
  cbn [theme page storage prefers_dark classes].
  destruct (String.eqb (theme s) "light") eqn:E.
  - apply String.eqb_eq in E. rewrite E.
    split; [now right|]. split; [discriminate|].
    split; [apply lookup_insert_eq|].
    intros dark cl. unfold initial_theme; cbn [storage].
    rewrite lookup_insert_eq. reflexivity.
  - apply String.eqb_neq in E.
    split; [now left|]. split; [congruence|].
    split; [apply lookup_insert_eq|].
    intros dark cl. unfold initial_theme; cbn [storage].
    rewrite lookup_insert_eq. reflexivity.
Qed.

(** X19: two calls of [toggleTheme] give back the theme they started
    from exactly when that theme is [light] or [dark]; from any other
    theme, as a stored text can be, they end on [dark]. *)
Theorem toggleTheme_twice : forall s,
  exists s2, toggles 2 s = Normal s2
    /\ (theme s2 = theme s <-> theme s = "light" \/ theme s = "dark")
    /\ (theme s <> "light" -> theme s2 = "dark").
Proof.
  intros s. cbn [toggles]. rewrite toggle_result. cbv zeta.
  rewrite toggle_result. cbv zeta. cbn [theme].
  eexists. split; [reflexivity|]. cbn [theme].
  destruct (String.eqb (theme s) "light") eqn:E.
  - apply String.eqb_eq in E. rewrite E.
    change (String.eqb "dark" "light") with false. cbv iota.
    split; [|congruence]. split; auto.
  - apply String.eqb_neq in E.
    change (String.eqb "light" "light") with true. cbv iota.
    split; [|reflexivity].
    split; [intros <-; now right|]. intros [H|H]; congruence.
Qed.

Lemma toggles_classes (t0 : string) (base : gset string) (n : nat) : forall s,
  classes (page s)
  = {[ theme s ]} ∪ ({[ t0 ]} ∖ {[ "light"; "dark" ]})
    ∪ (base ∖ {[ "light"; "dark" ]}) ->
  (theme s = t0 \/ theme s = "light" \/ theme s = "dark") ->
  exists s', toggles n s = Normal s'
    /\ classes (page s')
       = {[ theme s' ]} ∪ ({[ t0 ]} ∖ {[ "light"; "dark" ]})
         ∪ (base ∖ {[ "light"; "dark" ]})
    /\ (theme s' = theme s /\ n = 0 \/ theme s' = "light" \/ theme s' = "dark").
Proof.
  induction n as [|n IH]; intros s Hc Ht; cbn [toggles].
  - eexists. split; [reflexivity|]. split; [exact Hc|]. now left.
  - rewrite toggle_result. cbv zeta.
    set (t := if String.eqb (theme s) "light" then "dark" else "light").
    assert (Tv : t = "light" \/ t = "dark")
      by (subst t; destruct (String.eqb (theme s) "light"); auto).
    match goal with |- context [toggles n ?x] => set (s1 := x) end.
    destruct (IH s1) as (s' & Hs' & Hcl & Hv).
    + subst s1. cbn [theme page classes]. rewrite Hc.
      clearbody t. clear -Tv Ht.
      apply set_eq. intros x.
      rewrite !elem_of_union, !elem_of_difference, !elem_of_union,
        !elem_of_difference, !elem_of_union, !elem_of_singleton.
      destruct Tv as [-> | ->], Ht as [Ht|[Ht|Ht]]; rewrite ?Ht; tauto.
    + subst s1. cbn [theme]. tauto.
    + exists s'. split; [exact Hs'|]. split; [exact Hcl|].
      right. destruct Hv as [[-> _]|Hv]; [|exact Hv]. subst s1. exact Tv.
Qed.

(** X20: mounting the provider throws exactly when the stored theme
    holds white space.  Otherwise, after any number of calls of
    [toggleTheme], the root element has the class of the current theme,
    keeps every class it had other than [light] and [dark], and, when the
    first theme was [light] or [dark], has [light] exactly when the theme
    is [light] and [dark] exactly when it is [dark]; a stored theme that is
    neither stays as a class of the root whatever is toggled. *)
Theorem root_classes : forall h (n : nat),
  let t0 := initial_theme (Some h) in
  if has_ascii_ws t0 then exists e, mount h = Throw e
  else
    exists s0 s,
      mount h = Normal s0 /\ toggles n s0 = Normal s
      /\ classes (page s)
         = {[ theme s ]} ∪ ({[ t0 ]} ∖ {[ "light"; "dark" ]})
           ∪ (classes h ∖ {[ "light"; "dark" ]})
      /\ (t0 = "light" \/ t0 = "dark" ->
          ("light" ∈ classes (page s) <-> theme s = "light")
          /\ ("dark" ∈ classes (page s) <-> theme s = "dark")).
Proof.
  intros h n t0.
  assert (T0 : JS.truthy t0 = true).
  { subst t0. unfold initial_theme.
    destruct (storage h !! "theme") as [saved|];
      [destruct (JS.truthy saved) eqn:E; [exact E|]|];
      destruct (prefers_dark h); reflexivity. }
  unfold mount, effect, classList_add. cbn [theme page storage prefers_dark classes].
  fold t0. rewrite T0. cbn [negb].
  destruct (has_ascii_ws t0) eqn:W; [eauto|].
  set (s0 := {| theme := t0; page := _ |}).
  destruct (toggles_classes t0 (classes h) n s0) as (s & Hs & Hc & Hv).
  { subst s0. cbn [theme page classes]. apply set_eq. intros x.
    rewrite !elem_of_union, !elem_of_difference, !elem_of_singleton. tauto. }
  { now left. }
  exists s0, s. split; [reflexivity|]. split; [exact Hs|]. split; [exact Hc|].
  intros Hvalid.
  assert (Tv : theme s = "light" \/ theme s = "dark").
  { destruct Hv as [[-> _]|Hv]; [exact Hvalid|exact Hv]. }
  rewrite Hc.
  rewrite !elem_of_union, !elem_of_difference, !elem_of_union, !elem_of_singleton.
  destruct Tv as [-> | ->], Hvalid as [-> | ->];
    intuition (discriminate || congruence || auto).
Qed.

End ThemeFacts.

(** ** The user context *)

Section UserContextFacts.

Import UserContext.

Implicit Types (p : page) (e : event).

Lemma user_ok_step p e :
  match user p with
  | None => True
  | Some u => isLoggedIn u = true /\ JS.trim (name u) <> EmptyString
  end ->
  match user (step p e) with
  | None => True
  | Some u => isLoggedIn u = true /\ JS.trim (name u) <> EmptyString
  end.
Proof.
  intros H. destruct e as [value|n| |value|]; simpl; try exact H; try exact I.
  - unfold handleLogin. destruct (JS.truthy (JS.trim (login_name p))) eqn:E;
      [|exact H].
    simpl. split; [reflexivity|]. now apply truthy_nonempty.
  - unfold handleUpdateName. destruct (JS.truthy (JS.trim (newName p))) eqn:E;
      [|exact H].
    simpl. destruct (user p) as [u|]; simpl; [|exact I].
    split; [apply H|]. now apply truthy_nonempty.
Qed.

(** X21: whatever is typed and submitted in the two forms, the user of
    the context is null or is logged in with a name that does not trim to
    the empty string; and only a login or a logout changes whether there
    is a user and which id it has. *)
Theorem user_context_invariant : forall (es : list event) (e : event),
  let p := steps initial es in
  match user p with
  | None => True
  | Some u => isLoggedIn u = true /\ JS.trim (name u) <> EmptyString
  end
  /\ match e with
     | SubmitLogin _ | Logout => True
     | _ => option_map user_id (user (step p e)) = option_map user_id (user p)
     end.
Proof.
  intros es e p. split.
  - subst p. 
    assert (G : forall p0,
      match user p0 with
      | None => True
      | Some u => isLoggedIn u = true /\ JS.trim (name u) <> EmptyString
      end ->
      match user (steps p0 es) with
      | None => True
      | Some u => isLoggedIn u = true /\ JS.trim (name u) <> EmptyString
      end).
    { induction es as [|e0 es IH]; intros p0 H; simpl; [exact H|].
      apply IH, user_ok_step, H. }
    apply G. exact I.
  - destruct e as [value|n| |value|]; simpl; try reflexivity; try exact I.
    unfold handleUpdateName. destruct (JS.truthy (JS.trim (newName p)));
      [|reflexivity].
    simpl. destruct (user p); reflexivity.
Qed.

End UserContextFacts.

(** ** [useFetch]: removal, pending requests, outcomes *)

Section FetchMore.

Import Fetch.

Implicit Types (s : state) (e : event) (o : settlement) (k : nat).

Lemma same_deps_refl (d : string * string) : same_deps d d = true.
Proof. unfold same_deps. now rewrite !String.eqb_refl. Qed.

Lemma flags_ok_mount (url : string) (options : JSON.json) :
  flags_ok (mount url options).
Proof.
  intros k. unfold mount. rewrite flag_effect. simpl.
  destruct (decide (0 = k)) as [<-|]; [auto|]. unfold flag; simpl.
  rewrite lookup_empty. discriminate.
Qed.

Lemma flag_unmount k s :
  flag k (unmount s) = if alive s then flag k (cleanup s) else flag k s.
Proof. unfold unmount. destruct (alive s); reflexivity. Qed.

Lemma alive_unmount s : alive (unmount s) = false.
Proof. unfold unmount. destruct (alive s) eqn:A; [reflexivity|exact A]. Qed.

Lemma flags_ok_step s e : wf s -> flags_ok s -> flags_ok (step s e).
Proof.
  intros (Hn & _) H. destruct e as [url options|k' o|]; simpl.
  - unfold render. destruct (alive s) eqn:A; simpl; [|exact H].
    destruct (same_deps _ _); [exact H|].
    intros k. rewrite flag_effect, current_effect. simpl.
    destruct (decide (length (requests s) = k)) as [<-|]; [auto|].
    rewrite flag_cleanup. destruct (decide (current s = k)) as [<-|Hk]; [discriminate|].
    intros F. destruct (H k F) as [_ E]. congruence.
  - intros k. unfold current. rewrite flag_settle, requests_settle, alive_settle.
    apply H.
  - intros k. rewrite flag_unmount, alive_unmount.
    destruct (alive s) eqn:A.
    + rewrite flag_cleanup. destruct (decide (current s = k)) as [<-|Hk];
        [discriminate|].
      intros F. destruct (H k F) as [_ E]. congruence.
    + intros F. destruct (H k F) as [E _]. congruence.
Qed.

Lemma flags_ok_steps (es : list event) : forall s,
  wf s -> flags_ok s -> flags_ok (steps s es).
Proof.
  induction es as [|e es IH]; intros s W H; simpl; [exact H|].
  apply IH; [apply wf_step, W|apply flags_ok_step; assumption].
Qed.

Lemma reachable_flags_ok (url : string) (options : JSON.json) (es : list event) :
  flags_ok (steps (mount url options) es).
Proof. apply flags_ok_steps; [apply wf_mount|apply flags_ok_mount]. Qed.

Lemma dead_steps (es : list event) : forall s,
  alive s = false -> (forall k, flag k s = false) -> steps s es = s.
Proof.
  induction es as [|e es IH]; intros s A F; simpl; [reflexivity|].
  assert (E : step s e = s).
  { destruct e as [url options|k o|]; simpl.
    - unfold render. now rewrite A.
    - apply settle_stale_id, F.
    - unfold unmount. now rewrite A. }
  rewrite E. now apply IH.
Qed.

(** X22: once the instance is removed, nothing changes its state any
    more: not the end of a request, whichever and however it ends, not a
    render, not a second removal. *)
Theorem unmount_suppresses : forall (url : string) (options : JSON.json)
    (es later : list event),
  let s := unmount (steps (mount url options) es) in
  steps s later = s /\ result s = result (steps (mount url options) es).
Proof.
  intros url options es later s.
  pose proof (reachable_flags_ok url options es) as H.
  set (s0 := steps (mount url options) es) in *.
  split.
  - apply dead_steps.
    + apply alive_unmount.
    + intros k. subst s. rewrite flag_unmount. destruct (alive s0) eqn:A.
      * rewrite flag_cleanup.
        destruct (decide (current s0 = k)) as [<-|Hk]; [reflexivity|].
        destruct (flag k s0) eqn:F; [|reflexivity].
        destruct (H k F) as [_ E]. congruence.
      * destruct (flag k s0) eqn:F; [|reflexivity].
        destruct (H k F) as [E _]. congruence.
  - subst s. unfold unmount. destruct (alive s0); reflexivity.
Qed.

Lemma quiet_step s e :
  flags_ok s -> quiet (current s) (deps s) e -> step s e = s.
Proof.
  intros H Q. destruct e as [url options|k o|]; simpl in *.
  - unfold render. rewrite Q, same_deps_refl.
    destruct (negb (alive s)); reflexivity.
  - apply settle_stale_id. destruct (flag k s) eqn:F; [|reflexivity].
    destruct (H k F) as [_ E]. congruence.
  - destruct Q.
Qed.

Lemma quiet_steps (es : list event) : forall s,
  flags_ok s -> List.Forall (quiet (current s) (deps s)) es -> steps s es = s.
Proof.
  induction es as [|e es IH]; intros s H Q; simpl; [reflexivity|].
  inversion Q as [|? ? Qe Qes]; subst.
  rewrite (quiet_step s e H Qe). now apply IH.
Qed.

(** X23: a request that has not ended keeps the state as it is: renders
    with the same key and the ends of requests of earlier runs change
    nothing, so after a key change [loading] stays true until the request
    of the new key ends. *)
Theorem pending_request_stable : forall (url0 : string) (options0 : JSON.json)
    (es0 : list event) (url : string) (options : JSON.json) (es : list event),
  let s := steps (mount url0 options0) es0 in
  let s' := render url options s in
  List.Forall (quiet (current s') (deps s')) es ->
  steps s' es = s'
  /\ (alive s = true -> same_deps (deps s) (key url options) = false ->
      loading (steps s' es) = true).
Proof.
  intros url0 options0 es0 url options es s s' Q.
  assert (H : flags_ok s').
  { apply (flags_ok_step s (Render url options)).
    - apply wf_steps, wf_mount.
    - apply reachable_flags_ok. }
  rewrite (quiet_steps es s' H Q). split; [reflexivity|].
  intros A K. subst s'. unfold render. rewrite A, K. reflexivity.
Qed.

Lemma pending_request_stable_witness :
  let s' := render "/posts/B" (JSON.JObj []) (mount "/posts/A" (JSON.JObj [])) in
  let es := [Settle 0 (Rejected (NotAnError JSON.JNull));
             Render "/posts/B" (JSON.JObj [])] in
  loading (steps s' es) = true.
Proof.
  intros s' es.
  refine (proj2 (pending_request_stable "/posts/A" (JSON.JObj []) []
                   "/posts/B" (JSON.JObj []) es _) eq_refl eq_refl).
  repeat constructor. discriminate.
Defined.

(** X24: when the request of the current run of an instance in the tree
    ends, [loading] is false and: a response that is [ok] with a body that
    reads as JSON gives that value and no error; a response that is not
    [ok] gives the error [HTTP error! Status: <status>] and no data,
    whatever its body; a rejection or a body that fails gives the [Error]
    thrown, or [An unknown error occurred] when what was thrown is no
    [Error], and no data. *)
Theorem current_request_outcomes : forall (url : string) (options : JSON.json)
    (es : list event) (status : Z) (body : thrown + JSON.json)
    (v : JSON.json) (err : JsError),
  let s := steps (mount url options) es in
  alive s = true ->
  result (settle (current s) (Response true status (inr v)) s) = (v, false, None)
  /\ result (settle (current s) (Response false status body) s)
     = (JSON.JNull, false,
        Some (mkError ("HTTP error! Status: " +:+ JS.toString status)))
  /\ result (settle (current s) (Rejected (AnError err)) s)
     = (JSON.JNull, false, Some err)
  /\ result (settle (current s) (Response true status (inl (AnError err))) s)
     = (JSON.JNull, false, Some err)
  /\ result (settle (current s) (Rejected (NotAnError v)) s)
     = (JSON.JNull, false, Some (mkError "An unknown error occurred")).
Proof.
  intros url options es status body v err s A.
  assert (W : wf s) by apply wf_steps, wf_mount.
  assert (F : flag (current s) s = true) by now apply W.
  repeat split; rewrite (result_settle_current _ _ _ F); reflexivity.
Qed.

Lemma current_request_outcomes_witness :
  result (settle 0 (Response false 404 (inr JSON.JNull))
            (mount "/posts/1" (JSON.JObj [])))
  = (JSON.JNull, false, Some (mkError "HTTP error! Status: 404")).
Proof.
  exact (proj1 (proj2 (current_request_outcomes "/posts/1" (JSON.JObj []) []
                         404 (inr JSON.JNull) JSON.JNull (mkError "x") eq_refl))).
Defined.

End FetchMore.

(** ** [trim] is idempotent *)

Section TrimFacts.

Import JS.

Lemma trimStart_fixed (s : string) : starts_ws s = false -> trimStart s = s.
Proof.
  destruct s as [|c1 r1]; [reflexivity|]. cbn [starts_ws trimStart]. intros H.
  apply orb_false_iff in H as [E1 H]. rewrite E1.
  destruct r1 as [|c2 r2]; [reflexivity|].
  apply orb_false_iff in H as [E2 H]. rewrite E2.
  destruct r2 as [|c3 r3]; [reflexivity|]. rewrite H. reflexivity.
Qed.

Lemma trimStart_bounded (n : nat) : forall s,
  String.length s <= n ->
  starts_ws (trimStart s) = false
  /\ forall b, trimStart s = EmptyString -> trimStart (s +:+ b) = trimStart b.
Proof.
  induction n as [|n IH]; intros s Hn.
  { destruct s; [|simpl in Hn; lia]. split; [reflexivity|]. intros b _. reflexivity. }
  destruct s as [|c1 r1]; [split; [reflexivity|intros b _; reflexivity]|].
  simpl in Hn.
  change (String c1 r1 +:+ ?b) with (String c1 (r1 +:+ b)).
  cbn [trimStart].
  destruct (is_ws1 c1) eqn:E1; [apply IH; lia|].
  destruct r1 as [|c2 r2].
  { split; [cbn [starts_ws]; rewrite E1; reflexivity|discriminate]. }
  change (String c2 r2 +:+ ?b) with (String c2 (r2 +:+ b)). cbv beta iota.
  destruct (is_ws2 c1 c2) eqn:E2; [apply IH; simpl in Hn; lia|].
  destruct r2 as [|c3 r3].
  { split; [cbn [starts_ws]; rewrite E1, E2; reflexivity|discriminate]. }
  change (String c3 r3 +:+ ?b) with (String c3 (r3 +:+ b)). cbv beta iota.
  destruct (is_ws3 c1 c2 c3) eqn:E3; [apply IH; simpl in Hn; lia|].
  split; [cbn [starts_ws]; rewrite E1, E2, E3; reflexivity|discriminate].
Qed.

Lemma starts_ws_trimStart (s : string) : starts_ws (trimStart s) = false.
Proof. apply (trimStart_bounded (String.length s)). lia. Qed.

Lemma blank_app (a b : string) :
  blank a = true -> blank b = true -> blank (a +:+ b) = true.
Proof.
  unfold blank. intros Ha Hb.
  destruct (trimStart a) eqn:Ea; [|discriminate].
  rewrite (proj2 (trimStart_bounded (String.length a) a (le_n _)) b Ea).
  exact Hb.
Qed.

(** [trimEnd] cuts a blank end off. *)
Lemma trimEnd_split (s : string) :
  exists w, s = trimEnd s +:+ w /\ blank w = true.
Proof.
  induction s as [|c r (w & Hr & Hw)]; [exists EmptyString; auto|].
  cbn [trimEnd]. destruct (blank (String c r)) eqn:B.
  - exists (String c r). auto.
  - exists w. split; [|exact Hw].
    change (String c (trimEnd r) +:+ w) with (String c (trimEnd r +:+ w)).
    now rewrite <- Hr.
Qed.

Lemma trimEnd_twice (s : string) : trimEnd (trimEnd s) = trimEnd s.
Proof.
  induction s as [|c r IH]; [reflexivity|].
  cbn [trimEnd]. destruct (blank (String c r)) eqn:B; [reflexivity|].
  cbn [trimEnd]. rewrite IH.
  destruct (blank (String c (trimEnd r))) eqn:B'; [|reflexivity].
  destruct (trimEnd_split r) as (w & Hr & Hw).
  assert (blank (String c r) = true); [|congruence].
  rewrite Hr. change (String c (trimEnd r +:+ w)) with (String c (trimEnd r) +:+ w).
  now apply blank_app.
Qed.

Lemma starts_ws_app (p w : string) :
  starts_ws p = true -> starts_ws (p +:+ w) = true.
Proof.
  destruct p as [|c1 r1]; [discriminate|].
  change (String c1 r1 +:+ w) with (String c1 (r1 +:+ w)). cbn [starts_ws].
  destruct (is_ws1 c1); [reflexivity|]. cbn [orb].
  destruct r1 as [|c2 r2]; [discriminate|].
  change (String c2 r2 +:+ w) with (String c2 (r2 +:+ w)). cbv beta iota.
  destruct (is_ws2 c1 c2); [reflexivity|]. cbn [orb].
  destruct r2 as [|c3 r3]; [discriminate|].
  change (String c3 r3 +:+ w) with (String c3 (r3 +:+ w)). cbv beta iota.
  trivial.
Qed.

Lemma starts_ws_trimEnd (s : string) :
  starts_ws s = false -> starts_ws (trimEnd s) = false.
Proof.
  intros H. destruct (starts_ws (trimEnd s)) eqn:E; [|reflexivity].
  destruct (trimEnd_split s) as (w & Hs & _).
  apply (starts_ws_app _ w) in E. rewrite <- Hs in E. congruence.
Qed.

(** [trim] is idempotent. *)
Lemma trim_twice (s : string) : trim (trim s) = trim s.
Proof.
  unfold trim.
  rewrite (trimStart_fixed (trimEnd (trimStart s))).
  - apply trimEnd_twice.
  - apply starts_ws_trimEnd, starts_ws_trimStart.
Qed.

End TrimFacts.

(** ** The todo store: trimmed texts, the storage, the counters *)

Section TodoStoreInvariants.

Implicit Types (l : list Todo) (s : Store) (c : call) (i : string).

Lemma dispatch_texts_trimmed s c :
  List.Forall (fun t => JS.trim (text t) = text t) (todos s) ->
  List.Forall (fun t => JS.trim (text t) = text t) (todos (dispatch s c)).
Proof.
  rewrite !List.Forall_forall. intros H.
  destruct c as [now txt|i|i newText|i|]; unfold dispatch; simpl.
  - unfold addTodo. destruct (JS.truthy (JS.trim txt)); simpl; [|exact H].
    intros t Ht. apply List.in_app_or in Ht as [Ht|[<-|[]]]; [now apply H|].
    simpl. apply trim_twice.
  - intros t Ht. apply List.in_map_iff in Ht as (t0 & <- & Ht0).
    destruct (String.eqb (id t0) i); simpl; now apply H.
  - unfold editTodo. destruct (JS.truthy (JS.trim newText)); simpl; [|exact H].
    intros t Ht. apply List.in_map_iff in Ht as (t0 & <- & Ht0).
    destruct (String.eqb (id t0) i); simpl; [apply trim_twice|now apply H].
  - intros t Ht. apply List.filter_In in Ht as [Ht _]. now apply H.
  - intros t Ht. apply List.filter_In in Ht as [Ht _]. now apply H.
Qed.

(** X25: every text in the collection is trimmed: from the empty
    collection, after any sequence of calls, trimming the text of a
    record gives that text. *)
Theorem texts_trimmed : forall ls (calls : list call),
  List.Forall (fun t => JS.trim (text t) = text t)
    (todos (run (mounted [] ls) calls)).
Proof.
  intros ls calls.
  assert (G : forall s,
    List.Forall (fun t => JS.trim (text t) = text t) (todos s) ->
    List.Forall (fun t => JS.trim (text t) = text t) (todos (run s calls))).
  { induction calls as [|c calls IH]; intros s H; simpl; [exact H|].
    apply IH, dispatch_texts_trimmed, H. }
  apply G. constructor.
Qed.

Lemma dispatch_storage s c (ls : gmap string string) :
  localStorage s = save_todos (todos s) ls ->
  localStorage (dispatch s c) = save_todos (todos (dispatch s c)) ls.
Proof.
  intros H. unfold dispatch. destruct (handler c (todos s)) as [l|]; [|exact H].
  simpl. rewrite H. unfold save_todos. apply insert_insert_eq.
Qed.

(** X26: the hook writes the key [todos] and no other: after any
    sequence of calls the storage is the storage the instance was mounted
    on with the text of the current collection under [todos]. *)
Theorem storage_frame : forall l ls (calls : list call),
  let s := run (mounted l ls) calls in
  localStorage s = <["todos" := JSON.stringify (json_of_todos (todos s))]> ls
  /\ forall key : string, key <> "todos" -> localStorage s !! key = ls !! key.
Proof.
  intros l ls calls s.
  assert (G : forall s0, localStorage s0 = save_todos (todos s0) ls ->
              localStorage (run s0 calls) = save_todos (todos (run s0 calls)) ls).
  { induction calls as [|c calls IH]; intros s0 H; simpl; [exact H|].
    apply IH, dispatch_storage, H. }
  assert (E : localStorage s = save_todos (todos s) ls) by (apply G; reflexivity).
  split; [exact E|].
  intros key Hk. rewrite E. unfold save_todos. now apply lookup_insert_ne.
Qed.

Lemma toggle_count i (t : Todo) l :
  List.NoDup (List.map id l) -> List.In t l -> id t = i ->
  let flip := fun todo =>
    if String.eqb (id todo) i
    then {| id := id todo; text := text todo;
            completed := negb (completed todo) |}
    else todo in
  length (List.filter (fun todo => completed todo) (List.map flip l))
  + (if completed t then 1 else 0)
  = length (List.filter (fun todo => completed todo) l)
    + (if completed t then 0 else 1).
Proof.
  intros Hn Ht Hi flip. induction l as [|t0 l IH]; [destruct Ht|].
  simpl in Hn. inversion Hn as [|? ? Hnot Hn']; subst.
  destruct Ht as [->|Ht].
  - assert (E : List.map flip l = l).
    { apply map_unchanged. intros t' Ht'. subst flip. simpl.
      rewrite (id_not_in (id t) l t' Hnot Ht'). reflexivity. }
    simpl. rewrite E. subst flip. simpl. rewrite String.eqb_refl.
    destruct (completed t); simpl; lia.
  - specialize (IH Hn' Ht).
    assert (E : String.eqb (id t0) (id t) = false).
    { apply String.eqb_neq. intros E. apply Hnot. rewrite E.
      now apply List.in_map. }
    simpl. subst flip. simpl. rewrite E. simpl in IH.
    destruct (completed t0); simpl; lia.
Qed.

(** X27: when the ids of the collection are pairwise distinct,
    [toggleTodo] with the id of a record moves exactly one record between
    active and completed: the count of completed records goes up by one
    if the record was active and down by one if it was completed, and the
    total stays. *)
Theorem toggleTodo_counts : forall s (t : Todo),
  List.NoDup (List.map id (todos s)) -> List.In t (todos s) ->
  let s' := dispatch s (ToggleTodo (id t)) in
  total (stats (todos s')) = total (stats (todos s))
  /\ stats_completed (stats (todos s')) + (if completed t then 1 else 0)
     = stats_completed (stats (todos s)) + (if completed t then 0 else 1)
  /\ active (stats (todos s')) + (if completed t then 0 else 1)
     = active (stats (todos s)) + (if completed t then 1 else 0).
Proof.
  intros s t Hn Ht s'.
  pose proof (toggle_count (id t) t (todos s) Hn Ht eq_refl) as Hc.
  pose proof (stats_sum (todos s)) as S0.
  pose proof (stats_sum (todos s')) as S1.
  assert (T : total (stats (todos s')) = total (stats (todos s))).
  { subst s'. unfold dispatch; simpl. apply List.length_map. }
  assert (C : stats_completed (stats (todos s')) + (if completed t then 1 else 0)
              = stats_completed (stats (todos s)) + (if completed t then 0 else 1)).
  { subst s'. unfold dispatch; simpl. exact Hc. }
  split; [exact T|]. split; [exact C|].
  destruct (completed t); lia.
Qed.

Lemma toggleTodo_counts_witness :
  let s := mounted [mkTodo "1" "tea" true; mkTodo "2" "milk" false] ∅ in
  stats_completed (stats (todos (dispatch s (ToggleTodo "2")))) + 0
  = stats_completed (stats (todos s)) + 1.
Proof.
  intros s.
  assert (Hn : List.NoDup (List.map id (todos s))).
  { simpl. constructor; [simpl; intros [H|[]]; discriminate H|].
    constructor; [intros []|constructor]. }
  exact (proj1 (proj2 (toggleTodo_counts s (mkTodo "2" "milk" false) Hn
                         (or_intror (or_introl eq_refl))))).
Defined.

End TodoStoreInvariants.
